(** * Bao Retro Camera: photo lifecycle, drag tracker and caption service

    A shallow embedding of the state-handling code of the application:

    - [types.ts]                    : [Position], [PhotoData]
    - [services/geminiService.ts]   : [generateCaption]
    - the [App] component           : [takePhoto] with its two continuations,
      the four drag handlers, [updatePhoto], [deletePhoto]
    - the [Polaroid] component      : [saveEdit], [cancelEdit],
      [handleRegenerate], [handleDelete], [handleKeyDown], the caption
      line and the conditions under which the buttons are rendered
    - further parts of [App]        : [startCamera], the centre crop drawn
      by [takePhoto], the tilt of a wall photo, and the application as a
      transition system over its events

    Modelling conventions.

    - A JavaScript [number] is modelled by an exact rational ([Q]): the
      arithmetic of the handlers (sums and differences of pixel coordinates,
      a halving, a successor on z-indexes) is carried out without rounding,
      and there is no NaN and no infinity.  [===] on numbers is [Qeq_bool].
    - A JavaScript string is a [string]; [===] on strings is [String.eqb].
    - React state is one record, [AppState]; every [setX(prev => ...)] call
      is a function on that record and a handler is the composition of its
      setter calls in program order.  A handler reads the values captured by
      its closure ([photos], [stagedPhoto], [cameraError], [dragState]) from
      the state it is applied to: the rendered snapshot is taken to be
      up to date when an event is handled.
    - What a handler starts besides state updates (sound playback, the
      caption request, the timer) is returned as a list of [Effect]s; the
      callbacks registered for them are separate transitions
      ([captionResolved], [developTimerFired]).
    - Everything a handler reads from the browser (refs, the canvas, the
      clock, the bounding rectangle, the mouse event) is an explicit
      argument. *)

From Stdlib Require Import List String Ascii Bool Arith QArith Lqa Lia Permutation.
Import ListNotations.

Set Implicit Arguments.

(** ** types.ts *)

Definition number := Q.

Module Position.
Record t := mk { x : number; y : number }.
End Position.

Module PhotoData.
Record t := mk {
  id : string;
  dataUrl : string;
  caption : string;
  date : string;
  position : Position.t;
  zIndex : number;
  isDeveloping : bool;
  isLoadingCaption : bool
}.
End PhotoData.

(** [Partial<PhotoData>]: an object literal carrying a subset of the keys. *)
Module Partial.
Record t := mk {
  id : option string;
  dataUrl : option string;
  caption : option string;
  date : option string;
  position : option Position.t;
  zIndex : option number;
  isDeveloping : option bool;
  isLoadingCaption : option bool
}.

Definition empty : t := mk None None None None None None None None.

Definition with_caption (c : string) (u : t) : t :=
  mk (id u) (dataUrl u) (Some c) (date u) (position u) (zIndex u)
     (isDeveloping u) (isLoadingCaption u).
Definition with_position (p : Position.t) (u : t) : t :=
  mk (id u) (dataUrl u) (caption u) (date u) (Some p) (zIndex u)
     (isDeveloping u) (isLoadingCaption u).
Definition with_zIndex (z : number) (u : t) : t :=
  mk (id u) (dataUrl u) (caption u) (date u) (position u) (Some z)
     (isDeveloping u) (isLoadingCaption u).
Definition with_isDeveloping (b : bool) (u : t) : t :=
  mk (id u) (dataUrl u) (caption u) (date u) (position u) (zIndex u)
     (Some b) (isLoadingCaption u).
Definition with_isLoadingCaption (b : bool) (u : t) : t :=
  mk (id u) (dataUrl u) (caption u) (date u) (position u) (zIndex u)
     (isDeveloping u) (Some b).
End Partial.

Definition override {A : Type} (old : A) (new : option A) : A :=
  match new with
  | Some v => v
  | None => old
  end.

(** The object spread [{ ...p, ...updates }]. *)
Definition spread (p : PhotoData.t) (updates : Partial.t) : PhotoData.t :=
  PhotoData.mk
    (override (PhotoData.id p) (Partial.id updates))
    (override (PhotoData.dataUrl p) (Partial.dataUrl updates))
    (override (PhotoData.caption p) (Partial.caption updates))
    (override (PhotoData.date p) (Partial.date updates))
    (override (PhotoData.position p) (Partial.position updates))
    (override (PhotoData.zIndex p) (Partial.zIndex updates))
    (override (PhotoData.isDeveloping p) (Partial.isDeveloping updates))
    (override (PhotoData.isLoadingCaption p) (Partial.isLoadingCaption updates)).

(** ** Constants for camera layout *)

Definition CAMERA_SIZE : number := 450.
Definition PHOTO_WIDTH : number := 240.
Definition PHOTO_HEIGHT : number := 320.

(** ** State of the [App] component *)

Module DragState.
Record t := mk {
  id : string;
  startX : number;
  startY : number;
  initialPhotoPos : Position.t
}.
End DragState.

Record AppState := mkApp {
  photos : list PhotoData.t;
  stagedPhoto : option PhotoData.t;
  cameraError : option string;
  dragState : option DragState.t
}.

Definition initialState : AppState := mkApp [] None None None.

Definition setPhotos (f : list PhotoData.t -> list PhotoData.t) (s : AppState) : AppState :=
  mkApp (f (photos s)) (stagedPhoto s) (cameraError s) (dragState s).

Definition setStagedPhoto (f : option PhotoData.t -> option PhotoData.t) (s : AppState) : AppState :=
  mkApp (photos s) (f (stagedPhoto s)) (cameraError s) (dragState s).

Definition setDragState (d : option DragState.t) (s : AppState) : AppState :=
  mkApp (photos s) (stagedPhoto s) (cameraError s) d.

(** Truthiness of [stagedPhoto] (an object or null) and of [cameraError]
    (a string or null: the empty string is falsy). *)
Definition truthy_object {A : Type} (o : option A) : bool :=
  match o with
  | Some _ => true
  | None => false
  end.

Definition truthy_string (o : option string) : bool :=
  match o with
  | Some s => negb (String.eqb s EmptyString)
  | None => false
  end.

(** ** What the handlers read from the browser *)

Record VideoElement := mkVideo { videoWidth : number; videoHeight : number }.

Record CaptureEnv := mkCapture {
  videoRef : option VideoElement;      (* videoRef.current *)
  shutterAudioRef : bool;              (* shutterAudioRef.current is set *)
  context2d : bool;                    (* canvas.getContext('2d') is not null *)
  toDataURL : string;                  (* canvas.toDataURL('image/jpeg', 0.9) *)
  now : string;                        (* Date.now().toString() *)
  localeDate : string                  (* new Date().toLocaleDateString(...) *)
}.

Record MouseEvent := mkMouse { clientX : number; clientY : number }.

Record DOMRect := mkRect { left : number; top : number; width : number; height : number }.

(** ** What the handlers start *)

Inductive Effect :=
| PlayShutter                                   (* currentTime = 0; play() *)
| GenerateCaption (newId dataUrl : string)      (* generateCaption(dataUrl).then(...) *)
| DevelopTimer (newId : string) (ms : number).  (* setTimeout(..., 3500) *)

(** ** 2. Shutter action *)

(** The [.then] callback of the caption request. *)
Definition updateFn (newId caption : string) (p : PhotoData.t) : PhotoData.t :=
  if String.eqb (PhotoData.id p) newId
  then spread p (Partial.with_isLoadingCaption false (Partial.with_caption caption Partial.empty))
  else p.

Definition captionResolved (newId caption : string) (s : AppState) : AppState :=
  let s1 := setStagedPhoto (fun prev =>
              match prev with
              | Some p => if String.eqb (PhotoData.id p) newId
                          then Some (updateFn newId caption p) else prev
              | None => prev
              end) s in
  setPhotos (fun prev => map (updateFn newId caption) prev) s1.

(** The [setTimeout] callback. *)
Definition clearDevFn (newId : string) (p : PhotoData.t) : PhotoData.t :=
  if String.eqb (PhotoData.id p) newId
  then spread p (Partial.with_isDeveloping false Partial.empty)
  else p.

Definition developTimerFired (newId : string) (s : AppState) : AppState :=
  let s1 := setStagedPhoto (fun prev =>
              match prev with
              | Some p => if String.eqb (PhotoData.id p) newId
                          then Some (clearDevFn newId p) else prev
              | None => prev
              end) s in
  setPhotos (fun prev => map (clearDevFn newId) prev) s1.

Definition newPhoto (env : CaptureEnv) : PhotoData.t :=
  PhotoData.mk (now env) (toDataURL env) EmptyString (localeDate env)
               (Position.mk 0 0) 10 true true.

Definition takePhoto (env : CaptureEnv) (s : AppState) : AppState * list Effect :=
  match videoRef env with
  | None => (s, [])
  | Some vid =>
    if truthy_object (stagedPhoto s) || truthy_string (cameraError s) then (s, [])
    else
      let sound := if shutterAudioRef env then [PlayShutter] else [] in
      if Qeq_bool (videoWidth vid) 0 || Qeq_bool (videoHeight vid) 0 then (s, sound)
      else if context2d env then
        (setStagedPhoto (fun _ => Some (newPhoto env)) s,
         sound ++ [GenerateCaption (now env) (toDataURL env);
                   DevelopTimer (now env) 3500])
      else (s, sound)
  end.

(** ** 3. Drag logic *)

(** A. Start dragging from the staged slot (pulling out of the camera). *)
Definition handleStagedMouseDown (container : option DOMRect) (e : MouseEvent)
                                 (s : AppState) : AppState :=
  match stagedPhoto s, container with
  | Some staged, Some rect =>
    let photoCenterX := left rect + (width rect / 2) in
    let photoCenterY := top rect - (PHOTO_HEIGHT * 0.25) in
    let wallPhoto :=
      spread staged
        (Partial.with_zIndex 100
          (Partial.with_position
            (Position.mk (photoCenterX - (PHOTO_WIDTH / 2)) photoCenterY)
            Partial.empty)) in
    let s1 := setStagedPhoto (fun _ => None) s in
    let s2 := setPhotos (fun prev => prev ++ [wallPhoto]) s1 in
    setDragState (Some (DragState.mk (PhotoData.id wallPhoto) (clientX e) (clientY e)
                                     (PhotoData.position wallPhoto))) s2
  | _, _ => s
  end.

(** [Math.max(...args)]: the running maximum starts at minus infinity
    ([None]) and is replaced by every argument that is greater. *)
Definition higher (highest : option number) (n : number) : option number :=
  match highest with
  | None => Some n
  | Some h => if Qle_bool n h then Some h else Some n
  end.

Definition Math_max (args : list number) : option number :=
  fold_left higher args None.

(** [Math.max(...photos.map(p => p.zIndex), 100) + 1]; the argument list is
    never empty, so the [None] branch is not taken. *)
Definition maxZ (ps : list PhotoData.t) : number :=
  match Math_max (map PhotoData.zIndex ps ++ [100]) with
  | Some m => m + 1
  | None => 0
  end.

(** B. Start dragging a wall photo. *)
Definition handleWallMouseDown (e : MouseEvent) (photo : PhotoData.t)
                               (s : AppState) : AppState :=
  let z := maxZ (photos s) in
  let s1 := setPhotos (fun prev =>
              map (fun p => if String.eqb (PhotoData.id p) (PhotoData.id photo)
                            then spread p (Partial.with_zIndex z Partial.empty)
                            else p) prev) s in
  setDragState (Some (DragState.mk (PhotoData.id photo) (clientX e) (clientY e)
                                   (PhotoData.position photo))) s1.

(** C. Global move. *)
Definition handleGlobalMouseMove (e : MouseEvent) (s : AppState) : AppState :=
  match dragState s with
  | None => s
  | Some d =>
    let dx := clientX e - DragState.startX d in
    let dy := clientY e - DragState.startY d in
    setPhotos (fun prev =>
      map (fun p =>
             if String.eqb (PhotoData.id p) (DragState.id d)
             then spread p (Partial.with_position
                    (Position.mk (Position.x (DragState.initialPhotoPos d) + dx)
                                 (Position.y (DragState.initialPhotoPos d) + dy))
                    Partial.empty)
             else p) prev) s
  end.

(** D. Global up. *)
Definition handleGlobalMouseUp (s : AppState) : AppState :=
  setDragState None s.

(** ** 4. Render helpers *)

Definition updatePhoto (id : string) (updates : Partial.t) (s : AppState) : AppState :=
  setPhotos (fun prev =>
    map (fun p => if String.eqb (PhotoData.id p) id then spread p updates else p) prev) s.

Definition deletePhoto (id : string) (s : AppState) : AppState :=
  setPhotos (fun prev => filter (fun p => negb (String.eqb (PhotoData.id p) id)) prev) s.

(** ** services/geminiService.ts *)

Module Gemini.

(** A computation inside [try { ... }]: it returns or it throws. *)
Inductive outcome (A : Type) :=
| Returned (a : A)
| Thrown.
Arguments Thrown {A}.

Definition bind {A B : Type} (m : outcome A) (k : A -> outcome B) : outcome B :=
  match m with
  | Returned a => k a
  | Thrown => Thrown
  end.

Definition try_catch {A : Type} (body : outcome A) (handler : A) : A :=
  match body with
  | Returned a => a
  | Thrown => handler
  end.

(** How a promise settles. *)
Inductive settled :=
| Resolved (value : string)
| Rejected.

(** The response of [ai.models.generateContent]: [text] may be absent. *)
Record Response := mkResponse { text : option string }.

Record Env := mkEnv {
  API_KEY : option string;                          (* process.env.API_KEY *)
  language : option string;                         (* navigator.language *)
  generateContent : string -> string -> outcome Response
    (* the request, given the image data and the prompt *)
}.

Definition getSystemPrompt (locale : string) : string :=
  ("
You are a warm, nostalgic, and poetic AI assistant inside a retro camera.
Analyze the provided image and generate a SHORT, warm, 1-sentence blessing, memory, or nice comment about the scene.
Limit the response to maximum 10-12 words.
The output MUST be in the user's language: " ++ locale ++ ".
Do not include quotes.
")%string.

(** Removing the prefix matched by [/^data:image\/(png|jpeg|webp);base64,/]:
    [strip_prefix] drops one literal prefix, [cleanBase64] tries the three. *)
Fixpoint strip_prefix (pre s : string) : option string :=
  match pre, s with
  | EmptyString, _ => Some s
  | String a pre', String b s' =>
      if Ascii.eqb a b then strip_prefix pre' s' else None
  | String _ _, EmptyString => None
  end.

Definition cleanBase64 (base64Image : string) : string :=
  match strip_prefix "data:image/png;base64," base64Image with
  | Some r => r
  | None =>
    match strip_prefix "data:image/jpeg;base64," base64Image with
    | Some r => r
    | None =>
      match strip_prefix "data:image/webp;base64," base64Image with
      | Some r => r
      | None => base64Image
      end
    end
  end.

(** White space and line terminators among the 8-bit code units:
    TAB, LF, VT, FF, CR, SP and NBSP. *)
Definition isWhiteSpace (c : ascii) : bool :=
  let n := nat_of_ascii c in
  (Nat.leb 9 n && Nat.leb n 13) || Nat.eqb n 32 || Nat.eqb n 160.

Fixpoint trimStart (s : string) : string :=
  match s with
  | EmptyString => EmptyString
  | String c s' => if isWhiteSpace c then trimStart s' else s
  end.

(** Drops the trailing white space: a character is kept when it is not
    white space or when something is kept after it. *)
Fixpoint trimEnd (s : string) : string :=
  match s with
  | EmptyString => EmptyString
  | String c s' =>
      match trimEnd s' with
      | EmptyString => if isWhiteSpace c then EmptyString else String c EmptyString
      | r => String c r
      end
  end.

Definition trim (s : string) : string := trimEnd (trimStart s).

(** Truthiness of a string that may be undefined. *)
Definition truthy (o : option string) : bool :=
  match o with
  | Some s => negb (String.eqb s EmptyString)
  | None => false
  end.

(** [a || b] on strings. *)
Definition or_else (o : option string) (default : string) : string :=
  match o with
  | Some s => if String.eqb s EmptyString then default else s
  | None => default
  end.

Definition generateCaption (env : Env) (base64Image : string) : settled :=
  if negb (truthy (API_KEY env)) then
    Resolved "Memories are timeless..."
  else
    Resolved
      (try_catch
         (let locale := or_else (language env) "en-US" in
          let clean := cleanBase64 base64Image in
          bind (generateContent env clean (getSystemPrompt locale)) (fun response =>
          Returned (or_else (option_map trim (text response))
                            "A beautiful moment captured.")))
         "A moment frozen in time."%string).

End Gemini.

(** ** The [Polaroid] component *)

Module Polaroid.

Record Props := mkProps {
  photo : PhotoData.t;
  onUpdate : string -> Partial.t -> AppState -> AppState;
  onDelete : option (string -> AppState -> AppState);
  isStaged : bool
}.

(** The props [App] passes to a wall photo and to the staged photo. *)
Definition wallProps (p : PhotoData.t) : Props :=
  mkProps p updatePhoto (Some deletePhoto) false.

Definition stagedProps (p : PhotoData.t) : Props :=
  mkProps p (fun _ _ s => s) None true.

Record Local := mkLocal {
  isHovering : bool;
  isEditing : bool;
  editText : string
}.

Definition setIsEditing (b : bool) (l : Local) : Local :=
  mkLocal (isHovering l) b (editText l).

Definition setEditText (t : string) (l : Local) : Local :=
  mkLocal (isHovering l) (isEditing l) t.

Definition handleDelete (props : Props) (s : AppState) : AppState :=
  match onDelete props with
  | Some del => del (PhotoData.id (photo props)) s
  | None => s
  end.

(** [handleRegenerate] up to its [await], and its continuation. *)
Definition handleRegenerate_start (props : Props) (s : AppState) : AppState :=
  onUpdate props (PhotoData.id (photo props))
           (Partial.with_isLoadingCaption true Partial.empty) s.

Definition handleRegenerate_resume (props : Props) (newCaption : string)
                                   (s : AppState) : AppState :=
  onUpdate props (PhotoData.id (photo props))
           (Partial.with_isLoadingCaption false
              (Partial.with_caption newCaption Partial.empty)) s.

Definition saveEdit (props : Props) (ls : Local * AppState) : Local * AppState :=
  let (l, s) := ls in
  let s' := onUpdate props (PhotoData.id (photo props))
                     (Partial.with_caption (editText l) Partial.empty) s in
  (setIsEditing false l, s').

Definition cancelEdit (props : Props) (ls : Local * AppState) : Local * AppState :=
  let (l, s) := ls in
  (setIsEditing false (setEditText (PhotoData.caption (photo props)) l), s).

(** [handleKeyDown]: the flag tells whether [preventDefault] was called. *)
Record KeyboardEvent := mkKey { key : string; shiftKey : bool }.

Definition handleKeyDown (props : Props) (e : KeyboardEvent)
                         (ls : Local * AppState) : bool * (Local * AppState) :=
  if String.eqb (key e) "Enter" && negb (shiftKey e) then (true, saveEdit props ls)
  else if String.eqb (key e) "Escape" then (false, cancelEdit props ls)
  else (false, ls).

(** The effect [useEffect(() => setEditText(photo.caption), [photo.caption])]
    on a render that follows one with the photo [prev]: it runs when the
    caption differs. *)
Definition rerender (prev next : PhotoData.t) (l : Local) : Local :=
  if String.eqb (PhotoData.caption prev) (PhotoData.caption next) then l
  else setEditText (PhotoData.caption next) l.

(** What the caption paragraph shows. *)
Definition captionText (photo : PhotoData.t) : string :=
  if PhotoData.isLoadingCaption photo then "Developing thought..."
  else if String.eqb (PhotoData.caption photo) EmptyString then "..."
       else PhotoData.caption photo.

(** The download and delete buttons are rendered. *)
Definition toolsVisible (props : Props) (l : Local) : bool :=
  negb (isStaged props) && isHovering l && negb (isEditing l).

(** The edit and regenerate buttons are rendered. *)
Definition captionActionsVisible (props : Props) (l : Local) : bool :=
  negb (isEditing l) &&
  (negb (isStaged props) && isHovering l && negb (PhotoData.isLoadingCaption (photo props))).

End Polaroid.

(** ** Vocabulary of the properties *)

(** [p'] is [p] with its caption set to [c] and its loading flag cleared;
    nothing else differs. *)
Definition caption_delivered (c : string) (p p' : PhotoData.t) : Prop :=
  PhotoData.caption p' = c /\
  PhotoData.isLoadingCaption p' = false /\
  PhotoData.id p' = PhotoData.id p /\
  PhotoData.dataUrl p' = PhotoData.dataUrl p /\
  PhotoData.date p' = PhotoData.date p /\
  PhotoData.position p' = PhotoData.position p /\
  PhotoData.zIndex p' = PhotoData.zIndex p /\
  PhotoData.isDeveloping p' = PhotoData.isDeveloping p.

(** [p'] is [p] with [isDeveloping] cleared; nothing else differs. *)
Definition development_finished (p p' : PhotoData.t) : Prop :=
  PhotoData.isDeveloping p' = false /\
  PhotoData.id p' = PhotoData.id p /\
  PhotoData.dataUrl p' = PhotoData.dataUrl p /\
  PhotoData.caption p' = PhotoData.caption p /\
  PhotoData.date p' = PhotoData.date p /\
  PhotoData.position p' = PhotoData.position p /\
  PhotoData.zIndex p' = PhotoData.zIndex p /\
  PhotoData.isLoadingCaption p' = PhotoData.isLoadingCaption p.

(** [p] and [p'] agree on every field except possibly [position]. *)
Definition same_but_position (p p' : PhotoData.t) : Prop :=
  PhotoData.id p' = PhotoData.id p /\
  PhotoData.dataUrl p' = PhotoData.dataUrl p /\
  PhotoData.caption p' = PhotoData.caption p /\
  PhotoData.date p' = PhotoData.date p /\
  PhotoData.zIndex p' = PhotoData.zIndex p /\
  PhotoData.isDeveloping p' = PhotoData.isDeveloping p /\
  PhotoData.isLoadingCaption p' = PhotoData.isLoadingCaption p.

(** [p] and [p'] agree on every field except possibly [zIndex]. *)
Definition same_but_zIndex (p p' : PhotoData.t) : Prop :=
  PhotoData.id p' = PhotoData.id p /\
  PhotoData.dataUrl p' = PhotoData.dataUrl p /\
  PhotoData.caption p' = PhotoData.caption p /\
  PhotoData.date p' = PhotoData.date p /\
  PhotoData.position p' = PhotoData.position p /\
  PhotoData.isDeveloping p' = PhotoData.isDeveloping p /\
  PhotoData.isLoadingCaption p' = PhotoData.isLoadingCaption p.

(** [p] and [p'] agree on every field except possibly [caption]. *)
Definition same_but_caption (p p' : PhotoData.t) : Prop :=
  PhotoData.id p' = PhotoData.id p /\
  PhotoData.dataUrl p' = PhotoData.dataUrl p /\
  PhotoData.date p' = PhotoData.date p /\
  PhotoData.position p' = PhotoData.position p /\
  PhotoData.zIndex p' = PhotoData.zIndex p /\
  PhotoData.isDeveloping p' = PhotoData.isDeveloping p /\
  PhotoData.isLoadingCaption p' = PhotoData.isLoadingCaption p.

(** [p] and [p'] agree on every field except possibly [position] and
    [zIndex]. *)
Definition same_but_placement (p p' : PhotoData.t) : Prop :=
  PhotoData.id p' = PhotoData.id p /\
  PhotoData.dataUrl p' = PhotoData.dataUrl p /\
  PhotoData.caption p' = PhotoData.caption p /\
  PhotoData.date p' = PhotoData.date p /\
  PhotoData.isDeveloping p' = PhotoData.isDeveloping p /\
  PhotoData.isLoadingCaption p' = PhotoData.isLoadingCaption p.

(** [qs] is [ps] with the photos of the given id taken out and the rest
    kept in place. *)
Inductive removed_by_id (id : string) : list PhotoData.t -> list PhotoData.t -> Prop :=
| removed_nil : removed_by_id id [] []
| removed_drop p ps qs :
    PhotoData.id p = id -> removed_by_id id ps qs -> removed_by_id id (p :: ps) qs
| removed_keep p ps qs :
    PhotoData.id p <> id -> removed_by_id id ps qs -> removed_by_id id (p :: ps) (p :: qs).

(** A run of mouse moves, oldest first. *)
Definition mouseMoves (es : list MouseEvent) (s : AppState) : AppState :=
  fold_left (fun st e => handleGlobalMouseMove e st) es s.

(** ** Sample data *)

Module Sample.

Definition photoA : PhotoData.t :=
  PhotoData.mk "1700000000001" "data:image/jpeg;base64,AAAA" "first light"
               "Nov 14, 2023" (Position.mk 40 60) 100 false false.

Definition photoB : PhotoData.t :=
  PhotoData.mk "1700000000002" "data:image/jpeg;base64,BBBB" ""
               "Nov 14, 2023" (Position.mk 300 120) 103 true true.

Definition fresh : PhotoData.t :=
  PhotoData.mk "1700000000003" "data:image/jpeg;base64,CCCC" ""
               "Nov 14, 2023" (Position.mk 0 0) 10 true true.

(** Two photos on the wall, a third one still in the camera. *)
Definition wall : AppState := mkApp [photoA; photoB] (Some fresh) None None.

(** The same wall while [photoB] is being dragged. *)
Definition dragging : AppState :=
  mkApp [photoA; photoB] None None
        (Some (DragState.mk "1700000000002" 310 140 (Position.mk 300 120))).

Definition container : DOMRect := mkRect 64 200 450 450.

Definition press : MouseEvent := mkMouse 280 150.
Definition move1 : MouseEvent := mkMouse 350 90.
Definition move2 : MouseEvent := mkMouse 500 400.

(** A camera ready to shoot, and one whose stream has no frame yet. *)
Definition ready : CaptureEnv :=
  mkCapture (Some (mkVideo 640 480)) true true
            "data:image/jpeg;base64,DDDD" "1700000000004" "Nov 14, 2023".

Definition noFrame : CaptureEnv :=
  mkCapture (Some (mkVideo 0 0)) true true
            "data:image/jpeg;base64,DDDD" "1700000000004" "Nov 14, 2023".

Definition emptyWall : AppState := mkApp [photoA] None None None.

Definition cameraDown : AppState := mkApp [photoA] None (Some "Camera not found."%string) None.

(** Caption services: no key, a failing request, an empty answer, a
    padded answer. *)
Definition noKey : Gemini.Env :=
  Gemini.mkEnv None (Some "en-GB"%string)
               (fun _ _ => Gemini.Returned (Gemini.mkResponse (Some "unused"%string))).

Definition failing : Gemini.Env :=
  Gemini.mkEnv (Some "k"%string) None (fun _ _ => Gemini.Thrown).

Definition blank : Gemini.Env :=
  Gemini.mkEnv (Some "k"%string) None
               (fun _ _ => Gemini.Returned (Gemini.mkResponse (Some "   "%string))).

Definition answering : Gemini.Env :=
  Gemini.mkEnv (Some "k"%string) None
               (fun _ _ => Gemini.Returned (Gemini.mkResponse (Some " Warm light on a quiet day. "%string))).

Definition editing : Polaroid.Local := Polaroid.mkLocal true true "a new caption".

End Sample.

(** ** 1. Camera setup *)

Record MediaStream := mkStream { tracks : list string }.

Definition setCameraError (e : option string) (s : AppState) : AppState :=
  mkApp (photos s) (stagedPhoto s) e (dragState s).

Record CameraStart := mkCameraStart {
  started : AppState;                 (* the state after [startCamera] *)
  stream : option MediaStream;        (* the effect's local [stream] *)
  srcObject : option MediaStream      (* what the video element was given *)
}.

(** A [getUserMedia] request resolves with a stream ([Some]) or rejects
    ([None]); the fallback request is made only after the preferred one was
    rejected.  [video] tells whether [videoRef.current] is set. *)
Definition startCamera (preferred fallback : option MediaStream) (video : bool)
                       (s : AppState) : CameraStart :=
  let s0 := setCameraError None s in
  let r := match preferred with
           | Some st => (s0, Some st)
           | None =>
             match fallback with
             | Some st => (s0, Some st)
             | None => (setCameraError (Some "Camera not found."%string) s0, None)
             end
           end in
  mkCameraStart (fst r) (snd r)
                (match snd r with
                 | Some st => if video then Some st else None
                 | None => None
                 end).


(** ** The centre crop drawn by [takePhoto] *)

(** [Math.min(a, b)]: the running minimum starts at plus infinity and is
    replaced by every argument that is smaller. *)
Definition Math_min (a b : number) : number :=
  if Qle_bool a b then a else b.

(** The canvas size and the arguments of [ctx.drawImage]. *)
Record Crop := mkCrop {
  canvasSize : number;
  sx : number; sy : number; sWidth : number; sHeight : number;
  dx : number; dy : number; dWidth : number; dHeight : number
}.

Definition centerCrop (vid : VideoElement) : Crop :=
  let size := Math_min (videoWidth vid) (videoHeight vid) in
  mkCrop size
         ((videoWidth vid - size) / 2) ((videoHeight vid - size) / 2) size size
         0 0 size size.

(** ** The application as a transition system *)

(** What can happen to the application: the mount effect, a click on the
    shutter, the two callbacks [takePhoto] registers, the mouse handlers,
    and what the Polaroid of the wall photo at a place of the list does
    through [onUpdate] and [onDelete].  The continuation of
    [handleRegenerate] carries the id its closure captured. *)
Inductive Event :=
| CameraStarted (preferred fallback : option MediaStream) (video : bool)
| Shutter (env : CaptureEnv)
| CaptionArrived (newId caption : string)
| DevelopTimerElapsed (newId : string)
| StagedMouseDown (container : option DOMRect) (e : MouseEvent)
| WallMouseDown (e : MouseEvent) (index : nat)
| MouseMove (e : MouseEvent)
| MouseUp
| EditSaved (index : nat) (text : string)
| RegenerateClicked (index : nat)
| RegenerateArrived (id caption : string)
| DeleteClicked (index : nat).

(** A user event on a wall photo reaches the handler with the photo that
    was rendered at that place of the list. *)
Definition on_wall_photo (index : nat) (s : AppState)
                         (handler : PhotoData.t -> AppState) : AppState :=
  match nth_error (photos s) index with
  | Some photo => handler photo
  | None => s
  end.

Definition dispatch (ev : Event) (s : AppState) : AppState :=
  match ev with
  | CameraStarted preferred fallback video =>
      started (startCamera preferred fallback video s)
  | Shutter env => fst (takePhoto env s)
  | CaptionArrived newId caption => captionResolved newId caption s
  | DevelopTimerElapsed newId => developTimerFired newId s
  | StagedMouseDown container e => handleStagedMouseDown container e s
  | WallMouseDown e index =>
      on_wall_photo index s (fun photo => handleWallMouseDown e photo s)
  | MouseMove e => handleGlobalMouseMove e s
  | MouseUp => handleGlobalMouseUp s
  | EditSaved index text =>
      on_wall_photo index s (fun photo =>
        snd (Polaroid.saveEdit (Polaroid.wallProps photo)
                               (Polaroid.mkLocal true true text, s)))
  | RegenerateClicked index =>
      on_wall_photo index s (fun photo =>
        Polaroid.handleRegenerate_start (Polaroid.wallProps photo) s)
  | RegenerateArrived id caption =>
      updatePhoto id (Partial.with_isLoadingCaption false
                        (Partial.with_caption caption Partial.empty)) s
  | DeleteClicked index =>
      on_wall_photo index s (fun photo =>
        Polaroid.handleDelete (Polaroid.wallProps photo) s)
  end.

Definition run (evs : list Event) (s : AppState) : AppState :=
  fold_left (fun st ev => dispatch ev st) evs s.

(** The photos the application holds: the staged one, then the wall. *)
Definition all_photos (s : AppState) : list PhotoData.t :=
  match stagedPhoto s with
  | Some p => p :: photos s
  | None => photos s
  end.

(** Every shutter press of the run happens at a time stamp that is not the
    id of a photo the application holds at that moment. *)
Fixpoint fresh_shots (evs : list Event) (s : AppState) : Prop :=
  match evs with
  | [] => True
  | ev :: rest =>
      match ev with
      | Shutter env => ~ In (now env) (map PhotoData.id (all_photos s))
      | _ => True
      end /\ fresh_shots rest (dispatch ev s)
  end.

(** [p'] continues [p]: same picture, and developing only if [p] was. *)
Definition continues (p p' : PhotoData.t) : Prop :=
  PhotoData.id p' = PhotoData.id p /\
  PhotoData.dataUrl p' = PhotoData.dataUrl p /\
  PhotoData.date p' = PhotoData.date p /\
  (PhotoData.isDeveloping p' = true -> PhotoData.isDeveloping p = true).

(** ** Vocabulary of the further properties *)

Definition later_key {A : Type} (first second : option A) : option A :=
  match second with
  | Some v => Some v
  | None => first
  end.

(** The object literal [{ ...u1, ...u2 }]. *)
Definition merge (u1 u2 : Partial.t) : Partial.t :=
  Partial.mk (later_key (Partial.id u1) (Partial.id u2))
             (later_key (Partial.dataUrl u1) (Partial.dataUrl u2))
             (later_key (Partial.caption u1) (Partial.caption u2))
             (later_key (Partial.date u1) (Partial.date u2))
             (later_key (Partial.position u1) (Partial.position u2))
             (later_key (Partial.zIndex u1) (Partial.zIndex u2))
             (later_key (Partial.isDeveloping u1) (Partial.isDeveloping u2))
             (later_key (Partial.isLoadingCaption u1) (Partial.isLoadingCaption u2)).

Definition first_char (s : string) : option ascii :=
  match s with
  | EmptyString => None
  | String c _ => Some c
  end.

Fixpoint last_char (s : string) : option ascii :=
  match s with
  | EmptyString => None
  | String c EmptyString => Some c
  | String _ rest => last_char rest
  end.

(** Wall photos are stacked from 100 upwards, the staged photo lies at the
    origin of the camera with z-index 10, and the only error message is
    the one [startCamera] sets. *)
Definition well_formed (s : AppState) : Prop :=
  (forall p, In p (photos s) -> 100 <= PhotoData.zIndex p) /\
  (forall p, stagedPhoto s = Some p ->
             PhotoData.zIndex p = 10 /\ PhotoData.position p = Position.mk 0 0) /\
  (cameraError s = None \/ cameraError s = Some "Camera not found."%string).

(** The four ways a transition can act on the photos: rewrite them in
    place, take photos of one id off the wall, move the staged photo to the
    end of the wall, or stage a new photo in the empty slot. *)
Inductive transition_shape (ev : Event) (s s' : AppState) : Prop :=
| shape_in_place (f g : PhotoData.t -> PhotoData.t) :
    photos s' = map f (photos s) ->
    stagedPhoto s' = option_map g (stagedPhoto s) ->
    (forall p, continues p (f p)) ->
    (forall p, continues p (g p)) ->
    transition_shape ev s s'
| shape_delete (n : string) :
    photos s' = filter (fun p => negb (String.eqb (PhotoData.id p) n)) (photos s) ->
    stagedPhoto s' = stagedPhoto s ->
    transition_shape ev s s'
| shape_promote (staged w : PhotoData.t) :
    stagedPhoto s = Some staged ->
    stagedPhoto s' = None ->
    photos s' = photos s ++ [w] ->
    continues staged w ->
    transition_shape ev s s'
| shape_shoot (env : CaptureEnv) :
    ev = Shutter env ->
    stagedPhoto s = None ->
    stagedPhoto s' = Some (newPhoto env) ->
    photos s' = photos s ->
    transition_shape ev s s'.

(** ** The tilt of a wall photo *)

(** The value of a character as a digit in the given radix. *)
Definition digit_value (radix : Z) (c : ascii) : option Z :=
  let n := Z.of_nat (nat_of_ascii c) in
  let v := if (48 <=? n)%Z && (n <=? 57)%Z then Some (n - 48)%Z
           else if (97 <=? n)%Z && (n <=? 122)%Z then Some (n - 87)%Z
           else if (65 <=? n)%Z && (n <=? 90)%Z then Some (n - 55)%Z
           else None in
  match v with
  | Some d => if (d <? radix)%Z then Some d else None
  | None => None
  end.

(** The longest prefix of digits, read from the left; [None] as long as no
    digit was seen. *)
Fixpoint parse_digits (radix : Z) (acc : option Z) (s : string) : option Z :=
  match s with
  | EmptyString => acc
  | String c rest =>
      match digit_value radix c with
      | Some d =>
          parse_digits radix
            (Some (match acc with Some a => a * radix + d | None => d end)%Z) rest
      | None => acc
      end
  end.

(** [parseInt(s)] without a radix: leading white space is skipped, a sign
    is read, [0x] or [0X] selects radix 16, and the digits that follow are
    read; [None] is NaN.  The result is kept as an integer, which is what
    JavaScript computes as long as it has at most 15 digits. *)
Definition parseInt (s : string) : option Z :=
  let s0 := Gemini.trimStart s in
  let signed :=
    match s0 with
    | String c rest =>
        if Ascii.eqb c "-" then ((-1)%Z, rest)
        else if Ascii.eqb c "+" then (1%Z, rest)
        else (1%Z, s0)
    | EmptyString => (1%Z, s0)
    end in
  let prefixed :=
    match snd signed with
    | String c (String x rest) =>
        if Ascii.eqb c "0" && (Ascii.eqb x "x" || Ascii.eqb x "X") then (16%Z, rest)
        else (10%Z, snd signed)
    | _ => (10%Z, snd signed)
    end in
  option_map (Z.mul (fst signed)) (parse_digits (fst prefixed) None (snd prefixed)).

(** [(parseInt(photo.id) % 10) - 5], the degrees in [rotate(...)]; [%] is
    the remainder with the sign of the dividend. *)
Definition rotation (photo : PhotoData.t) : option Z :=
  option_map (fun n => (Z.rem n 10 - 5)%Z) (parseInt (PhotoData.id photo)).

Definition is_decimal (c : ascii) : bool :=
  let n := nat_of_ascii c in Nat.leb 48 n && Nat.leb n 57.

Fixpoint all_decimal (s : string) : bool :=
  match s with
  | EmptyString => true
  | String c rest => is_decimal c && all_decimal rest
  end.

Module Session.

(** A short session: both camera requests fail, then the camera comes up,
    two photos are taken and pulled out, the second one is dragged. *)
Definition cam : MediaStream := mkStream ["video0"%string].

Definition second : CaptureEnv :=
  mkCapture (Some (mkVideo 480 640)) true true
            "data:image/jpeg;base64,EEEE" "1700000000005" "Nov 14, 2023".

Definition events : list Event :=
  [ CameraStarted None (Some cam) true;
    Shutter Sample.ready;
    StagedMouseDown (Some Sample.container) Sample.press;
    MouseMove Sample.move1;
    MouseUp;
    CaptionArrived "1700000000004" "Warm light on a quiet day.";
    Shutter second;
    DevelopTimerElapsed "1700000000004";
    StagedMouseDown (Some Sample.container) Sample.press;
    MouseUp;
    WallMouseDown Sample.press 0;
    MouseMove Sample.move2 ].

Definition enter : Polaroid.KeyboardEvent := Polaroid.mkKey "Enter" false.
Definition shiftEnter : Polaroid.KeyboardEvent := Polaroid.mkKey "Enter" true.
Definition escape : Polaroid.KeyboardEvent := Polaroid.mkKey "Escape" false.
Definition letter : Polaroid.KeyboardEvent := Polaroid.mkKey "a" false.

End Session.

(** * Properties *)

Unset Implicit Arguments.

(** ** Updates keyed by photo id *)

Lemma eqb_id_true (p : PhotoData.t) (n : string) :
  PhotoData.id p = n -> String.eqb (PhotoData.id p) n = true.
Proof. intros ->. apply String.eqb_refl. Qed.

Lemma eqb_id_false (p : PhotoData.t) (n : string) :
  PhotoData.id p <> n -> String.eqb (PhotoData.id p) n = false.
Proof. intros H. now apply String.eqb_neq. Qed.

Lemma updateFn_hit (n c : string) (p : PhotoData.t) :
  PhotoData.id p = n -> caption_delivered c p (updateFn n c p).
Proof.
  intros H. unfold updateFn. rewrite (eqb_id_true p _ H).
  repeat split.
Qed.

Lemma updateFn_miss (n c : string) (p : PhotoData.t) :
  PhotoData.id p <> n -> updateFn n c p = p.
Proof.
  intros H. unfold updateFn. now rewrite (eqb_id_false p _ H).
Qed.

Lemma clearDevFn_hit (n : string) (p : PhotoData.t) :
  PhotoData.id p = n -> development_finished p (clearDevFn n p).
Proof.
  intros H. unfold clearDevFn. rewrite (eqb_id_true p _ H).
  repeat split.
Qed.

Lemma clearDevFn_miss (n : string) (p : PhotoData.t) :
  PhotoData.id p <> n -> clearDevFn n p = p.
Proof.
  intros H. unfold clearDevFn. now rewrite (eqb_id_false p _ H).
Qed.

(** Promotion puts the staged photo, under its own id, behind the photos
    already on the wall. *)
Lemma promoted_photo_is_last (rect : DOMRect) (e : MouseEvent) (s : AppState)
      (p : PhotoData.t) :
  stagedPhoto s = Some p ->
  exists w, photos (handleStagedMouseDown (Some rect) e s) = photos s ++ [w] /\
            same_but_placement p w /\
            PhotoData.zIndex w = 100 /\
            stagedPhoto (handleStagedMouseDown (Some rect) e s) = None.
Proof.
  intros Hst. unfold handleStagedMouseDown. rewrite Hst. cbn.
  eexists. split; [reflexivity|]. repeat split.
Qed.

(** ** The shutter *)

(** What [takePhoto] does once all its guards are passed. *)
Lemma takePhoto_shoots (env : CaptureEnv) (s : AppState) (vid : VideoElement) :
  videoRef env = Some vid ->
  stagedPhoto s = None ->
  truthy_string (cameraError s) = false ->
  ~ videoWidth vid == 0 ->
  ~ videoHeight vid == 0 ->
  context2d env = true ->
  takePhoto env s =
  (mkApp (photos s) (Some (newPhoto env)) (cameraError s) (dragState s),
   (if shutterAudioRef env then [PlayShutter] else [])
   ++ [GenerateCaption (now env) (toDataURL env); DevelopTimer (now env) 3500]).
Proof.
  intros Hv Hst Herr Hw Hh Hctx. unfold takePhoto.
  rewrite Hv, Hst, Herr, Hctx. cbn.
  destruct (Qeq_bool (videoWidth vid) 0) eqn:Ew.
  { apply Qeq_bool_iff in Ew. contradiction. }
  destruct (Qeq_bool (videoHeight vid) 0) eqn:Eh.
  { apply Qeq_bool_iff in Eh. contradiction. }
  reflexivity.
Qed.

(** [takePhoto] either leaves the state alone or fills the empty staged
    slot with [newPhoto] and starts the caption request and the timer. *)
Lemma takePhoto_cases (env : CaptureEnv) (s : AppState) :
  (fst (takePhoto env s) = s /\
   forall eff, In eff (snd (takePhoto env s)) -> eff = PlayShutter) \/
  (stagedPhoto s = None /\
   fst (takePhoto env s) = mkApp (photos s) (Some (newPhoto env)) (cameraError s) (dragState s) /\
   In (GenerateCaption (now env) (toDataURL env)) (snd (takePhoto env s)) /\
   In (DevelopTimer (now env) 3500) (snd (takePhoto env s))).
Proof.
  unfold takePhoto.
  destruct (videoRef env) as [vid|]; [|left; split; [reflexivity | intros ? []]].
  destruct (stagedPhoto s) as [sp|] eqn:Hst; cbn.
  { left; split; [reflexivity | intros ? []]. }
  destruct (truthy_string (cameraError s)).
  { left; split; [reflexivity | intros ? []]. }
  assert (Hsound : forall eff,
             In eff (if shutterAudioRef env then [PlayShutter] else []) -> eff = PlayShutter).
  { intros eff. destruct (shutterAudioRef env); cbn; intuition congruence. }
  destruct (Qeq_bool (videoWidth vid) 0 || Qeq_bool (videoHeight vid) 0).
  { left; split; [reflexivity | exact Hsound]. }
  destruct (context2d env).
  - right. cbn. repeat split; apply in_or_app; right; cbn; auto.
  - left; split; [reflexivity | exact Hsound].
Qed.

(** ** The caption request and the developing timer *)

(** C1. When the caption request started for the photo with id [n] resolves
    with [c], the callback sets [caption := c] and
    [isLoadingCaption := false] on the staged photo if it has id [n] and on
    every wall photo with id [n]; the other fields of these photos, the
    photos with another id, the camera error and the drag state are left as
    they were.  In particular a photo that was pulled out of the camera
    before the request resolved receives its caption on the wall. *)
Theorem caption_delivered_wherever_photo_is (n c : string) (s : AppState) :
  let s' := captionResolved n c s in
  (forall p, stagedPhoto s = Some p -> PhotoData.id p = n ->
     exists p', stagedPhoto s' = Some p' /\ caption_delivered c p p') /\
  (forall p, stagedPhoto s = Some p -> PhotoData.id p <> n ->
     stagedPhoto s' = Some p) /\
  (stagedPhoto s = None -> stagedPhoto s' = None) /\
  List.length (photos s') = List.length (photos s) /\
  (forall i p, nth_error (photos s) i = Some p -> PhotoData.id p = n ->
     exists p', nth_error (photos s') i = Some p' /\ caption_delivered c p p') /\
  (forall i p, nth_error (photos s) i = Some p -> PhotoData.id p <> n ->
     nth_error (photos s') i = Some p) /\
  cameraError s' = cameraError s /\
  dragState s' = dragState s /\
  (forall p rect e, stagedPhoto s = Some p -> PhotoData.id p = n ->
     let promoted := handleStagedMouseDown (Some rect) e s in
     exists w, nth_error (photos (captionResolved n c promoted)) (List.length (photos s)) = Some w /\
               PhotoData.id w = n /\
               PhotoData.caption w = c /\
               PhotoData.isLoadingCaption w = false /\
               PhotoData.dataUrl w = PhotoData.dataUrl p /\
               PhotoData.date w = PhotoData.date p /\
               PhotoData.isDeveloping w = PhotoData.isDeveloping p) /\
  (forall env p, stagedPhoto s = None ->
     stagedPhoto (fst (takePhoto env s)) = Some p ->
     In (GenerateCaption (PhotoData.id p) (PhotoData.dataUrl p)) (snd (takePhoto env s)) /\
     exists p', stagedPhoto (captionResolved (PhotoData.id p) c (fst (takePhoto env s))) = Some p' /\
                caption_delivered c p p').
Proof.
  cbv zeta. unfold captionResolved. cbn.
  split; [|split; [|split; [|split; [|split; [|split; [|split; [|split; [|split]]]]]]]].
  - intros p Hst Hid. rewrite Hst, (eqb_id_true p _ Hid).
    eexists. split; [reflexivity|]. now apply updateFn_hit.
  - intros p Hst Hid. rewrite Hst. now rewrite (eqb_id_false p _ Hid).
  - now intros ->.
  - apply length_map.
  - intros i p Hi Hid. rewrite nth_error_map, Hi. cbn.
    eexists. split; [reflexivity|]. now apply updateFn_hit.
  - intros i p Hi Hid. rewrite nth_error_map, Hi. cbn.
    now rewrite updateFn_miss.
  - reflexivity.
  - reflexivity.
  - intros p rect e Hst Hid.
    destruct (promoted_photo_is_last rect e s p Hst) as (w & Hw & Hsame & _ & _).
    rewrite Hw, map_app, nth_error_app2 by (rewrite length_map; lia).
    rewrite length_map, Nat.sub_diag. cbn.
    destruct Hsame as (Hwid & Hurl & _ & Hdate & Hdev & _).
    assert (Hwn : PhotoData.id w = n) by congruence.
    destruct (updateFn_hit n c w Hwn) as (Hc & Hl & Hi' & Hu' & Hd' & _ & _ & Hdv').
    eexists. split; [reflexivity|].
    repeat split; congruence.
  - intros env p Hnone Hp.
    destruct (takePhoto_cases env s) as [(Hsame & _) | (_ & Hnew & Hreq & _)].
    + rewrite Hsame in Hp. congruence.
    + rewrite Hnew in *. cbn in Hp. injection Hp as <-. cbn.
      split; [exact Hreq|]. rewrite String.eqb_refl.
      eexists. split; [reflexivity|]. now apply updateFn_hit.
Qed.

Lemma caption_delivered_wherever_photo_is_witness :
  (exists p', nth_error (photos (captionResolved "1700000000002" "still waters" Sample.wall)) 1
              = Some p' /\
              caption_delivered "still waters" Sample.photoB p') /\
  nth_error (photos (captionResolved "1700000000002" "still waters" Sample.wall)) 0
  = Some Sample.photoA /\
  stagedPhoto (captionResolved "1700000000002" "still waters" Sample.wall)
  = Some Sample.fresh.
Proof.
  destruct (caption_delivered_wherever_photo_is "1700000000002" "still waters" Sample.wall)
    as (_ & Hstaged & _ & _ & Hhit & Hmiss & _).
  split; [|split].
  - apply (Hhit 1%nat Sample.photoB); reflexivity.
  - apply (Hmiss 0%nat Sample.photoA); [reflexivity | discriminate].
  - apply (Hstaged Sample.fresh); [reflexivity | discriminate].
Defined.

(** C2. A photo enters the state only through [takePhoto], which stages it
    with [isDeveloping = true], [isLoadingCaption = true] and an empty
    caption and starts the 3500 ms timer for its id; when that timer fires,
    [isDeveloping] becomes false on the photo with that id, in the staged
    slot or on the wall, and no other field and no other photo changes. *)
Theorem photo_develops_until_timer (env : CaptureEnv) (n : string) (s : AppState) :
  let shot := takePhoto env s in
  let s' := developTimerFired n s in
  (forall vid,
     videoRef env = Some vid -> stagedPhoto s = None ->
     truthy_string (cameraError s) = false ->
     ~ videoWidth vid == 0 -> ~ videoHeight vid == 0 -> context2d env = true ->
     exists p, stagedPhoto (fst shot) = Some p /\
               PhotoData.id p = now env /\
               PhotoData.dataUrl p = toDataURL env /\
               PhotoData.isDeveloping p = true /\
               PhotoData.isLoadingCaption p = true /\
               PhotoData.caption p = EmptyString /\
               photos (fst shot) = photos s /\
               In (DevelopTimer (PhotoData.id p) 3500) (snd shot)) /\
  (forall p, stagedPhoto (fst shot) = Some p ->
     stagedPhoto s = Some p \/
     (PhotoData.isDeveloping p = true /\
      PhotoData.isLoadingCaption p = true /\
      PhotoData.caption p = EmptyString /\
      In (DevelopTimer (PhotoData.id p) 3500) (snd shot))) /\
  photos (fst shot) = photos s /\
  (forall p, stagedPhoto s = Some p -> PhotoData.id p = n ->
     exists p', stagedPhoto s' = Some p' /\ development_finished p p') /\
  (forall p, stagedPhoto s = Some p -> PhotoData.id p <> n ->
     stagedPhoto s' = Some p) /\
  (stagedPhoto s = None -> stagedPhoto s' = None) /\
  List.length (photos s') = List.length (photos s) /\
  (forall i p, nth_error (photos s) i = Some p -> PhotoData.id p = n ->
     exists p', nth_error (photos s') i = Some p' /\ development_finished p p') /\
  (forall i p, nth_error (photos s) i = Some p -> PhotoData.id p <> n ->
     nth_error (photos s') i = Some p) /\
  cameraError s' = cameraError s /\
  dragState s' = dragState s.
Proof.
  cbv zeta.
  split; [|split; [|split]].
  - intros vid Hv Hst Herr Hw Hh Hctx.
    rewrite (takePhoto_shoots env s vid Hv Hst Herr Hw Hh Hctx). cbn.
    eexists. split; [reflexivity|]. cbn.
    repeat split. apply in_or_app. right. cbn. auto.
  - intros p Hp.
    destruct (takePhoto_cases env s) as [(Hsame & _) | (_ & Hnew & _ & Htimer)].
    + left. now rewrite Hsame in Hp.
    + right. rewrite Hnew in Hp. cbn in Hp. injection Hp as <-. cbn.
      repeat split. exact Htimer.
  - destruct (takePhoto_cases env s) as [(Hsame & _) | (_ & Hnew & _)].
    + now rewrite Hsame.
    + now rewrite Hnew.
  - unfold developTimerFired. cbn.
    split; [|split; [|split; [|split; [|split; [|split]]]]].
    + intros p Hst Hid. rewrite Hst, (eqb_id_true p _ Hid).
      eexists. split; [reflexivity|]. now apply clearDevFn_hit.
    + intros p Hst Hid. rewrite Hst. now rewrite (eqb_id_false p _ Hid).
    + now intros ->.
    + apply length_map.
    + intros i p Hi Hid. rewrite nth_error_map, Hi. cbn.
      eexists. split; [reflexivity|]. now apply clearDevFn_hit.
    + intros i p Hi Hid. rewrite nth_error_map, Hi. cbn.
      now rewrite clearDevFn_miss.
    + split; reflexivity.
Qed.

Lemma photo_develops_until_timer_witness :
  (exists p, stagedPhoto (fst (takePhoto Sample.ready Sample.emptyWall)) = Some p /\
             PhotoData.id p = "1700000000004"%string /\
             PhotoData.isDeveloping p = true /\
             In (DevelopTimer (PhotoData.id p) 3500)
                (snd (takePhoto Sample.ready Sample.emptyWall))) /\
  (exists p', nth_error (photos (developTimerFired "1700000000002" Sample.wall)) 1 = Some p' /\
              development_finished Sample.photoB p') /\
  nth_error (photos (developTimerFired "1700000000002" Sample.wall)) 0 = Some Sample.photoA.
Proof.
  destruct (photo_develops_until_timer Sample.ready "1700000000002" Sample.emptyWall)
    as (Hshot & _).
  destruct (photo_develops_until_timer Sample.ready "1700000000002" Sample.wall)
    as (_ & _ & _ & _ & _ & _ & _ & Hhit & Hmiss & _).
  split; [|split].
  - destruct (Hshot (mkVideo 640 480)) as (p & Hp & Hid & _ & Hdev & _ & _ & _ & Ht);
      try reflexivity; try (intros H; discriminate H).
    exists p. repeat split; assumption.
  - apply (Hhit 1%nat Sample.photoB); reflexivity.
  - apply (Hmiss 0%nat Sample.photoA); [reflexivity | discriminate].
Defined.

(** ** The drag tracker *)

Lemma move_without_drag (e : MouseEvent) (s : AppState) :
  dragState s = None -> handleGlobalMouseMove e s = s.
Proof.
  intros H. unfold handleGlobalMouseMove. now rewrite H.
Qed.

Lemma move_keeps_rest (e : MouseEvent) (s : AppState) :
  stagedPhoto (handleGlobalMouseMove e s) = stagedPhoto s /\
  cameraError (handleGlobalMouseMove e s) = cameraError s /\
  dragState (handleGlobalMouseMove e s) = dragState s /\
  List.length (photos (handleGlobalMouseMove e s)) = List.length (photos s).
Proof.
  unfold handleGlobalMouseMove.
  destruct (dragState s) as [d|] eqn:Hd; cbn; repeat split; auto.
  apply length_map.
Qed.

(** The photo a move produces at each place of the wall. *)
Lemma move_at (e : MouseEvent) (s : AppState) (d : DragState.t) (i : nat) (p : PhotoData.t) :
  dragState s = Some d ->
  nth_error (photos s) i = Some p ->
  nth_error (photos (handleGlobalMouseMove e s)) i =
  Some (if String.eqb (PhotoData.id p) (DragState.id d)
        then PhotoData.mk (PhotoData.id p) (PhotoData.dataUrl p) (PhotoData.caption p)
               (PhotoData.date p)
               (Position.mk
                  (Position.x (DragState.initialPhotoPos d) + (clientX e - DragState.startX d))
                  (Position.y (DragState.initialPhotoPos d) + (clientY e - DragState.startY d)))
               (PhotoData.zIndex p) (PhotoData.isDeveloping p) (PhotoData.isLoadingCaption p)
        else p).
Proof.
  intros Hd Hi. unfold handleGlobalMouseMove. rewrite Hd. cbn.
  rewrite nth_error_map, Hi. reflexivity.
Qed.

(** A later move overwrites an earlier one. *)
Lemma move_move (e e' : MouseEvent) (s : AppState) :
  handleGlobalMouseMove e (handleGlobalMouseMove e' s) = handleGlobalMouseMove e s.
Proof.
  unfold handleGlobalMouseMove.
  destruct (dragState s) as [d|] eqn:Hd; cbn; rewrite Hd; [|reflexivity].
  unfold setPhotos. cbn. f_equal.
  rewrite map_map. apply map_ext. intros p.
  destruct (String.eqb (PhotoData.id p) (DragState.id d)) eqn:E; cbn; rewrite E; reflexivity.
Qed.

Lemma moves_then_move (es : list MouseEvent) (e : MouseEvent) (s : AppState) :
  mouseMoves (es ++ [e]) s = handleGlobalMouseMove e s.
Proof.
  unfold mouseMoves. rewrite fold_left_app. cbn.
  revert s. induction es as [|e' es IH]; intros s; cbn.
  - reflexivity.
  - rewrite IH. apply move_move.
Qed.

(** C3. The drag state is an optional record with one photo id: a press
    replaces whatever it held, a release clears it, a move keeps it.  A
    mouse move during a drag of id [d] changes only the wall photos whose
    id is [d], and of those only the position; every other wall photo, the
    staged photo and the camera error are untouched, and without an active
    drag a move changes nothing at all. *)
Theorem mouse_move_touches_only_dragged (e : MouseEvent) (s : AppState) :
  let s' := handleGlobalMouseMove e s in
  (dragState s = None -> s' = s) /\
  (forall d, dragState s = Some d ->
     (forall i p, nth_error (photos s) i = Some p ->
                  PhotoData.id p <> DragState.id d ->
                  nth_error (photos s') i = Some p) /\
     (forall i p, nth_error (photos s) i = Some p ->
                  PhotoData.id p = DragState.id d ->
                  exists p', nth_error (photos s') i = Some p' /\ same_but_position p p')) /\
  List.length (photos s') = List.length (photos s) /\
  stagedPhoto s' = stagedPhoto s /\
  cameraError s' = cameraError s /\
  dragState s' = dragState s /\
  (forall press photo,
     exists d, dragState (handleWallMouseDown press photo s) = Some d /\
               DragState.id d = PhotoData.id photo) /\
  (forall rect press staged, stagedPhoto s = Some staged ->
     exists d, dragState (handleStagedMouseDown (Some rect) press s) = Some d /\
               DragState.id d = PhotoData.id staged) /\
  dragState (handleGlobalMouseUp s) = None.
Proof.
  cbv zeta.
  destruct (move_keeps_rest e s) as (Hst & Herr & Hdrag & Hlen).
  split; [apply move_without_drag|].
  split.
  { intros d Hd. split.
    - intros i p Hi Hid. rewrite (move_at e s _ i _ Hd Hi).
      now rewrite (eqb_id_false p _ Hid).
    - intros i p Hi Hid. rewrite (move_at e s _ i _ Hd Hi).
      rewrite (eqb_id_true p _ Hid).
      eexists. split; [reflexivity|]. repeat split. }
  repeat (split; [assumption|]).
  split; [|split].
  - intros press photo. eexists. split; reflexivity.
  - intros rect press staged Hs. unfold handleStagedMouseDown. rewrite Hs.
    eexists. split; reflexivity.
  - reflexivity.
Qed.

Lemma mouse_move_touches_only_dragged_witness :
  handleGlobalMouseMove Sample.move1 Sample.wall = Sample.wall /\
  nth_error (photos (handleGlobalMouseMove Sample.move1 Sample.dragging)) 0
  = Some Sample.photoA /\
  (exists p', nth_error (photos (handleGlobalMouseMove Sample.move1 Sample.dragging)) 1 = Some p' /\
              same_but_position Sample.photoB p').
Proof.
  destruct (mouse_move_touches_only_dragged Sample.move1 Sample.wall) as (Hnone & _).
  destruct (mouse_move_touches_only_dragged Sample.move1 Sample.dragging) as (_ & Hdrag & _).
  destruct (Hdrag _ eq_refl) as (Hother & Hsame).
  split; [|split].
  - apply Hnone. reflexivity.
  - apply (Hother 0%nat Sample.photoA); [reflexivity | discriminate].
  - apply (Hsame 1%nat Sample.photoB); reflexivity.
Defined.

(** C4. While the drag state records the press at [(startX, startY)] and
    the photo position [p0], a move to [(cx, cy)] puts every wall photo of
    the dragged id at [(p0.x + (cx - startX), p0.y + (cy - startY))], which
    is [(p0.x + cx - startX, p0.y + cy - startY)] as a number; a run of
    moves ends in the state its last move alone produces.  The press on a
    wall photo records that photo's position, so the same holds from the
    press on. *)
Theorem drag_position_follows_pointer
        (s : AppState) (d : string) (startX startY : number) (p0 : Position.t)
        (e : MouseEvent) :
  dragState s = Some (DragState.mk d startX startY p0) ->
  let target := Position.mk (Position.x p0 + (clientX e - startX))
                            (Position.y p0 + (clientY e - startY)) in
  (forall i p, nth_error (photos s) i = Some p -> PhotoData.id p = d ->
     exists p', nth_error (photos (handleGlobalMouseMove e s)) i = Some p' /\
                PhotoData.position p' = target) /\
  Position.x target == Position.x p0 + clientX e - startX /\
  Position.y target == Position.y p0 + clientY e - startY /\
  (forall es, mouseMoves (es ++ [e]) s = handleGlobalMouseMove e s) /\
  (forall es i p, nth_error (photos s) i = Some p -> PhotoData.id p = d ->
     exists p', nth_error (photos (mouseMoves (es ++ [e]) s)) i = Some p' /\
                PhotoData.position p' = target) /\
  (forall press photo es i p,
     nth_error (photos s) i = Some p -> PhotoData.id p = PhotoData.id photo ->
     exists p', nth_error (photos (mouseMoves (es ++ [e]) (handleWallMouseDown press photo s))) i
                = Some p' /\
                PhotoData.position p' =
                Position.mk (Position.x (PhotoData.position photo) + (clientX e - clientX press))
                            (Position.y (PhotoData.position photo) + (clientY e - clientY press))).
Proof.
  intros Hd. cbv zeta.
  assert (Hmove : forall i p, nth_error (photos s) i = Some p -> PhotoData.id p = d ->
     exists p', nth_error (photos (handleGlobalMouseMove e s)) i = Some p' /\
                PhotoData.position p' =
                Position.mk (Position.x p0 + (clientX e - startX))
                            (Position.y p0 + (clientY e - startY))).
  { intros i p Hi Hid. rewrite (move_at e s _ i _ Hd Hi). cbn.
    rewrite (eqb_id_true p _ Hid). eexists. split; reflexivity. }
  split; [exact Hmove|].
  split; [cbn; ring|].
  split; [cbn; ring|].
  split; [intros es; apply moves_then_move|].
  split.
  - intros es i p Hi Hid. rewrite moves_then_move. exact (Hmove i p Hi Hid).
  - intros press photo es i p Hi Hid. rewrite moves_then_move.
    set (s1 := handleWallMouseDown press photo s).
    assert (Hi1 : exists q, nth_error (photos s1) i = Some q /\
                            PhotoData.id q = PhotoData.id photo).
    { unfold s1, handleWallMouseDown. cbn. rewrite nth_error_map, Hi. cbn.
      rewrite (eqb_id_true p _ Hid). eexists. split; [reflexivity|]. cbn. exact Hid. }
    destruct Hi1 as (q & Hq & Hqid).
    assert (Hd1 : dragState s1 = Some (DragState.mk (PhotoData.id photo) (clientX press)
                                          (clientY press) (PhotoData.position photo)))
      by reflexivity.
    rewrite (move_at e s1 _ i _ Hd1 Hq). cbn.
    rewrite (eqb_id_true q _ Hqid). eexists. split; reflexivity.
Qed.

Lemma drag_position_follows_pointer_witness :
  (exists p', nth_error (photos (handleGlobalMouseMove Sample.move2 Sample.dragging)) 1 = Some p' /\
              PhotoData.position p' = Position.mk (300 + (500 - 310)) (120 + (400 - 140))) /\
  mouseMoves ([Sample.move1] ++ [Sample.move2]) Sample.dragging
  = handleGlobalMouseMove Sample.move2 Sample.dragging.
Proof.
  destruct (drag_position_follows_pointer Sample.dragging "1700000000002" 310 140
              (Position.mk 300 120) Sample.move2 eq_refl) as (Hpos & _ & _ & Hpath & _).
  split.
  - apply (Hpos 1%nat Sample.photoB); reflexivity.
  - apply (Hpath [Sample.move1]).
Defined.

(** ** Promotion to the wall *)

(** C5. A press on the staged photo empties the staged slot and appends the
    photo to the end of the wall list with its id, dataUrl, caption, date,
    isDeveloping and isLoadingCaption as they were, a position computed from
    the camera's rectangle and zIndex 100; the photos already on the wall
    keep their places and their contents. *)
Theorem promotion_appends_staged_photo
        (rect : DOMRect) (e : MouseEvent) (s : AppState) (staged : PhotoData.t) :
  stagedPhoto s = Some staged ->
  let s' := handleStagedMouseDown (Some rect) e s in
  stagedPhoto s' = None /\
  cameraError s' = cameraError s /\
  List.length (photos s') = S (List.length (photos s)) /\
  (forall i p, nth_error (photos s) i = Some p -> nth_error (photos s') i = Some p) /\
  exists w,
    photos s' = photos s ++ [w] /\
    nth_error (photos s') (List.length (photos s)) = Some w /\
    same_but_placement staged w /\
    PhotoData.zIndex w = 100 /\
    PhotoData.position w =
    Position.mk (left rect + width rect / 2 - PHOTO_WIDTH / 2)
                (top rect - PHOTO_HEIGHT * 0.25).
Proof.
  intros Hst. cbv zeta.
  unfold handleStagedMouseDown. rewrite Hst. cbn.
  split; [reflexivity|]. split; [reflexivity|].
  split; [rewrite length_app; cbn; lia|].
  split.
  - intros i p Hi. rewrite nth_error_app1; [exact Hi|].
    apply nth_error_Some. congruence.
  - eexists. split; [reflexivity|].
    split; [rewrite nth_error_app2, Nat.sub_diag by lia; reflexivity|].
    repeat split.
Qed.

Lemma promotion_appends_staged_photo_witness :
  stagedPhoto (handleStagedMouseDown (Some Sample.container) Sample.press Sample.wall) = None /\
  nth_error (photos (handleStagedMouseDown (Some Sample.container) Sample.press Sample.wall)) 1
  = Some Sample.photoB /\
  exists w,
    photos (handleStagedMouseDown (Some Sample.container) Sample.press Sample.wall)
    = photos Sample.wall ++ [w] /\
    same_but_placement Sample.fresh w /\
    PhotoData.zIndex w = 100.
Proof.
  destruct (promotion_appends_staged_photo Sample.container Sample.press Sample.wall
              Sample.fresh eq_refl) as (Hnone & _ & _ & Hold & w & Hw & _ & Hsame & Hz & _).
  split; [exact Hnone|].
  split; [apply Hold; reflexivity|].
  exists w. split; [exact Hw | split; [exact Hsame | exact Hz]].
Defined.

(** ** Deleting and editing *)

Lemma filter_removed_by_id (id : string) (ps : list PhotoData.t) :
  removed_by_id id ps (filter (fun p => negb (String.eqb (PhotoData.id p) id)) ps).
Proof.
  induction ps as [|p ps IH]; cbn.
  - constructor.
  - destruct (String.eqb (PhotoData.id p) id) eqn:E; cbn.
    + apply removed_drop; [now apply String.eqb_eq | exact IH].
    + apply removed_keep; [now apply String.eqb_neq | exact IH].
Qed.

Lemma filter_absent_id (id : string) (ps : list PhotoData.t) :
  (forall p, In p ps -> PhotoData.id p <> id) ->
  filter (fun p => negb (String.eqb (PhotoData.id p) id)) ps = ps.
Proof.
  induction ps as [|p ps IH]; cbn; intros H.
  - reflexivity.
  - rewrite (eqb_id_false p id (H p (or_introl eq_refl))). cbn.
    f_equal. apply IH. intros q Hq. apply H. now right.
Qed.

(** C6. [deletePhoto id] takes out of the wall list exactly the photos whose
    id is [id]: the photos that remain are those with another id, each as it
    was and in the original order, and a wall without that id is left as it
    is.  The staged photo, the camera error and the drag state are not
    touched. *)
Theorem deletePhoto_removes_exactly_id (id : string) (s : AppState) :
  let s' := deletePhoto id s in
  removed_by_id id (photos s) (photos s') /\
  (forall p, In p (photos s') <-> In p (photos s) /\ PhotoData.id p <> id) /\
  ((forall p, In p (photos s) -> PhotoData.id p <> id) -> s' = s) /\
  stagedPhoto s' = stagedPhoto s /\
  cameraError s' = cameraError s /\
  dragState s' = dragState s.
Proof.
  cbv zeta. unfold deletePhoto. cbn.
  split; [apply filter_removed_by_id|].
  split.
  - intros p. rewrite filter_In, negb_true_iff.
    split; intros (Hin & Hid); split; try assumption.
    + now apply String.eqb_neq.
    + now apply String.eqb_neq.
  - split; [|repeat split].
    intros Habsent. unfold setPhotos. rewrite (filter_absent_id id (photos s) Habsent).
    now destruct s.
Qed.

Lemma deletePhoto_removes_exactly_id_witness :
  photos (deletePhoto "1700000000001" Sample.wall) = [Sample.photoB] /\
  deletePhoto "1700000000009" Sample.wall = Sample.wall.
Proof.
  destruct (deletePhoto_removes_exactly_id "1700000000009" Sample.wall) as (_ & _ & Habsent & _).
  split; [reflexivity|].
  apply Habsent. intros p [<- | [<- | []]]; discriminate.
Defined.

(** C7. Saving an edit on a wall photo sets the caption of the wall photo
    with that id to the edit buffer; its other fields and the photos with
    another id are as before, and when ids are not shared on the wall every
    other place of the list is unchanged.  Cancelling puts the photo's
    caption back into the edit buffer and leaves the application state as it
    is.  Both close the editor. *)
Theorem saveEdit_sets_caption_only (photo : PhotoData.t) (l : Polaroid.Local) (s : AppState) :
  let saved := Polaroid.saveEdit (Polaroid.wallProps photo) (l, s) in
  let cancelled := Polaroid.cancelEdit (Polaroid.wallProps photo) (l, s) in
  (forall i p, nth_error (photos s) i = Some p -> PhotoData.id p = PhotoData.id photo ->
     exists p', nth_error (photos (snd saved)) i = Some p' /\
                PhotoData.caption p' = Polaroid.editText l /\
                same_but_caption p p') /\
  (forall i p, nth_error (photos s) i = Some p -> PhotoData.id p <> PhotoData.id photo ->
     nth_error (photos (snd saved)) i = Some p) /\
  (NoDup (map PhotoData.id (photos s)) ->
   forall i, nth_error (photos s) i = Some photo ->
   forall j, j <> i -> nth_error (photos (snd saved)) j = nth_error (photos s) j) /\
  List.length (photos (snd saved)) = List.length (photos s) /\
  stagedPhoto (snd saved) = stagedPhoto s /\
  cameraError (snd saved) = cameraError s /\
  dragState (snd saved) = dragState s /\
  Polaroid.isEditing (fst saved) = false /\
  Polaroid.editText (fst saved) = Polaroid.editText l /\
  Polaroid.editText (fst cancelled) = PhotoData.caption photo /\
  Polaroid.isEditing (fst cancelled) = false /\
  snd cancelled = s.
Proof.
  cbv zeta. cbn.
  split; [|split; [|split]].
  - intros i p Hi Hid. rewrite nth_error_map, Hi. cbn.
    rewrite (eqb_id_true p _ Hid). eexists. split; [reflexivity|]. repeat split.
  - intros i p Hi Hid. rewrite nth_error_map, Hi. cbn.
    now rewrite (eqb_id_false p _ Hid).
  - intros Hnd i Hi j Hj. rewrite nth_error_map.
    destruct (nth_error (photos s) j) as [q|] eqn:Hq; [|reflexivity]. cbn.
    destruct (String.eqb (PhotoData.id q) (PhotoData.id photo)) eqn:E; [|reflexivity].
    apply String.eqb_eq in E. exfalso. apply Hj.
    rewrite NoDup_nth_error in Hnd. apply Hnd.
    + rewrite length_map. apply nth_error_Some. congruence.
    + rewrite !nth_error_map, Hi, Hq. cbn. now rewrite E.
  - repeat split. apply length_map.
Qed.

Lemma saveEdit_sets_caption_only_witness :
  (exists p', nth_error (photos (snd (Polaroid.saveEdit (Polaroid.wallProps Sample.photoA)
                                        (Sample.editing, Sample.wall)))) 0 = Some p' /\
              PhotoData.caption p' = "a new caption"%string /\
              same_but_caption Sample.photoA p') /\
  nth_error (photos (snd (Polaroid.saveEdit (Polaroid.wallProps Sample.photoA)
                            (Sample.editing, Sample.wall)))) 1
  = nth_error (photos Sample.wall) 1 /\
  snd (Polaroid.cancelEdit (Polaroid.wallProps Sample.photoA) (Sample.editing, Sample.wall))
  = Sample.wall.
Proof.
  destruct (saveEdit_sets_caption_only Sample.photoA Sample.editing Sample.wall)
    as (Hhit & _ & Huniq & _ & _ & _ & _ & _ & _ & _ & _ & Hcancel).
  split; [|split].
  - apply (Hhit 0%nat Sample.photoA); reflexivity.
  - apply (Huniq) with (i := 0%nat); [|reflexivity|discriminate].
    cbn. repeat constructor; cbn; intuition discriminate.
  - exact Hcancel.
Defined.

(** ** The caption service *)

(** C8. [generateCaption] always resolves, to a non-empty string, and never
    rejects: it yields "Memories are timeless..." without an API key,
    "A moment frozen in time." when the request throws, and
    "A beautiful moment captured." when the response has no text or a text
    that is empty once trimmed; otherwise it yields the trimmed text. *)
Theorem generateCaption_always_resolves (env : Gemini.Env) (base64Image : string) :
  let result := Gemini.generateCaption env base64Image in
  let request :=
    Gemini.generateContent env (Gemini.cleanBase64 base64Image)
      (Gemini.getSystemPrompt (Gemini.or_else (Gemini.language env) "en-US")) in
  (exists v, result = Gemini.Resolved v /\ v <> EmptyString) /\
  result <> Gemini.Rejected /\
  (Gemini.API_KEY env = None \/ Gemini.API_KEY env = Some EmptyString ->
   result = Gemini.Resolved "Memories are timeless...") /\
  (Gemini.truthy (Gemini.API_KEY env) = true ->
   (request = Gemini.Thrown -> result = Gemini.Resolved "A moment frozen in time.") /\
   (forall r, request = Gemini.Returned r ->
              Gemini.text r = None \/ Gemini.text r = Some EmptyString ->
              result = Gemini.Resolved "A beautiful moment captured.") /\
   (forall r t, request = Gemini.Returned r -> Gemini.text r = Some t ->
                Gemini.trim t = EmptyString ->
                result = Gemini.Resolved "A beautiful moment captured.") /\
   (forall r t, request = Gemini.Returned r -> Gemini.text r = Some t ->
                Gemini.trim t <> EmptyString ->
                result = Gemini.Resolved (Gemini.trim t))).
Proof.
  cbv zeta. unfold Gemini.generateCaption.
  split; [|split; [|split]].
  - destruct (Gemini.truthy (Gemini.API_KEY env)); cbn.
    + destruct (Gemini.generateContent env _ _) as [r|]; cbn.
      * destruct (Gemini.text r) as [t|]; cbn.
        -- destruct (String.eqb (Gemini.trim t) EmptyString) eqn:E.
           ++ eexists. split; [reflexivity | discriminate].
           ++ eexists. split; [reflexivity | now apply String.eqb_neq].
        -- eexists. split; [reflexivity | discriminate].
      * eexists. split; [reflexivity | discriminate].
    + eexists. split; [reflexivity | discriminate].
  - destruct (negb (Gemini.truthy (Gemini.API_KEY env))); discriminate.
  - intros [-> | ->]; reflexivity.
  - intros ->. cbn.
    split; [|split; [|split]].
    + intros ->. reflexivity.
    + intros r Hr Ht. rewrite Hr. cbn. destruct Ht as [-> | ->]; reflexivity.
    + intros r t Hr Hr' Ht. rewrite Hr. cbn. rewrite Hr'. cbn.
      rewrite Ht. reflexivity.
    + intros r t Hr Hr' Ht. rewrite Hr. cbn. rewrite Hr'. cbn.
      apply String.eqb_neq in Ht. now rewrite Ht.
Qed.

Lemma generateCaption_always_resolves_witness :
  Gemini.generateCaption Sample.noKey "data:image/jpeg;base64,AAAA"
  = Gemini.Resolved "Memories are timeless..." /\
  Gemini.generateCaption Sample.failing "data:image/jpeg;base64,AAAA"
  = Gemini.Resolved "A moment frozen in time." /\
  Gemini.generateCaption Sample.blank "data:image/jpeg;base64,AAAA"
  = Gemini.Resolved "A beautiful moment captured." /\
  Gemini.generateCaption Sample.answering "data:image/jpeg;base64,AAAA"
  = Gemini.Resolved "Warm light on a quiet day.".
Proof.
  destruct (generateCaption_always_resolves Sample.noKey "data:image/jpeg;base64,AAAA")
    as (_ & _ & Hkey & _).
  destruct (generateCaption_always_resolves Sample.failing "data:image/jpeg;base64,AAAA")
    as (_ & _ & _ & Hfail).
  destruct (generateCaption_always_resolves Sample.blank "data:image/jpeg;base64,AAAA")
    as (_ & _ & _ & Hblank).
  destruct (generateCaption_always_resolves Sample.answering "data:image/jpeg;base64,AAAA")
    as (_ & _ & _ & Hans).
  split; [|split; [|split]].
  - apply Hkey. left. reflexivity.
  - destruct (Hfail eq_refl) as (Hthrown & _). apply Hthrown. reflexivity.
  - destruct (Hblank eq_refl) as (_ & _ & Hempty & _).
    apply (Hempty (Gemini.mkResponse (Some "   "%string)) "   "%string); reflexivity.
  - destruct (Hans eq_refl) as (_ & _ & _ & Htext).
    apply (Htext (Gemini.mkResponse (Some " Warm light on a quiet day. "%string))
                 " Warm light on a quiet day. "%string);
      [reflexivity | reflexivity | discriminate].
Defined.

(** ** The shutter guards *)

(** With a video element that has no frame yet, [takePhoto] leaves the
    state alone but has already reset and started the shutter sound. *)
Lemma takePhoto_without_frame_plays_shutter :
  videoRef Sample.noFrame = Some (mkVideo 0 0) /\
  videoWidth (mkVideo 0 0) == 0 /\
  takePhoto Sample.noFrame Sample.emptyWall = (Sample.emptyWall, [PlayShutter]) /\
  takePhoto Sample.noFrame Sample.emptyWall <> (Sample.emptyWall, []).
Proof.
  split; [reflexivity|]. split; [reflexivity|]. split; [reflexivity|].
  discriminate.
Qed.

(** C9 (amended). The staged slot holds at most one photo.  While a photo
    is staged or a camera error is set, [takePhoto] does nothing at all: the
    state is unchanged and nothing is started.  When the video element has
    zero width or zero height the state is unchanged and neither the caption
    request nor the timer is started; the shutter sound, which comes before
    that check, is the only thing that may have been started. *)
Theorem takePhoto_guards (env : CaptureEnv) (s : AppState) :
  (stagedPhoto s <> None \/ truthy_string (cameraError s) = true ->
   takePhoto env s = (s, [])) /\
  (forall vid, videoRef env = Some vid ->
     videoWidth vid == 0 \/ videoHeight vid == 0 ->
     fst (takePhoto env s) = s /\
     (forall eff, In eff (snd (takePhoto env s)) -> eff = PlayShutter) /\
     (stagedPhoto s = None -> truthy_string (cameraError s) = false ->
      snd (takePhoto env s) = if shutterAudioRef env then [PlayShutter] else [])) /\
  (forall p, stagedPhoto s = Some p -> stagedPhoto (fst (takePhoto env s)) = Some p).
Proof.
  split; [|split].
  - intros H. unfold takePhoto.
    destruct (videoRef env) as [vid|]; [|reflexivity].
    destruct H as [H | H].
    + destruct (stagedPhoto s); [reflexivity | congruence].
    + rewrite H, orb_true_r. reflexivity.
  - intros vid Hv Hzero.
    assert (Hz : Qeq_bool (videoWidth vid) 0 || Qeq_bool (videoHeight vid) 0 = true).
    { apply orb_true_iff. destruct Hzero as [H | H]; [left | right]; now apply Qeq_bool_iff. }
    unfold takePhoto. rewrite Hv, Hz.
    destruct (truthy_object (stagedPhoto s) || truthy_string (cameraError s)) eqn:G; cbn.
    + split; [reflexivity|]. split; [intros ? []|].
      intros Hst Herr. rewrite Hst, Herr in G. discriminate.
    + split; [reflexivity|]. split; [|reflexivity].
      intros eff. destruct (shutterAudioRef env); cbn; intuition congruence.
  - intros p Hp. unfold takePhoto.
    destruct (videoRef env) as [vid|]; [|exact Hp].
    rewrite Hp. cbn. exact Hp.
Qed.

Lemma takePhoto_guards_witness :
  takePhoto Sample.ready Sample.wall = (Sample.wall, []) /\
  takePhoto Sample.ready Sample.cameraDown = (Sample.cameraDown, []) /\
  fst (takePhoto Sample.noFrame Sample.emptyWall) = Sample.emptyWall /\
  snd (takePhoto Sample.noFrame Sample.emptyWall) = [PlayShutter].
Proof.
  destruct (takePhoto_guards Sample.ready Sample.wall) as (Hstaged & _).
  destruct (takePhoto_guards Sample.ready Sample.cameraDown) as (Herror & _).
  destruct (takePhoto_guards Sample.noFrame Sample.emptyWall) as (_ & Hzero & _).
  destruct (Hzero (mkVideo 0 0) eq_refl (or_introl (Qeq_refl 0))) as (Hstate & _ & Hsound).
  split; [|split; [|split]].
  - apply Hstaged. left. discriminate.
  - apply Herror. right. reflexivity.
  - exact Hstate.
  - apply Hsound; reflexivity.
Defined.

(** ** Bringing a wall photo to the front *)

Lemma higher_fold (args : list number) (acc : option number) :
  (forall a, acc = Some a -> exists m, fold_left higher args acc = Some m /\ a <= m) /\
  (forall z, In z args -> exists m, fold_left higher args acc = Some m /\ z <= m) /\
  (fold_left higher args acc = acc \/
   exists z, In z args /\ fold_left higher args acc = Some z).
Proof.
  revert acc. induction args as [|n args IH]; intros acc; cbn.
  - split; [|split].
    + intros a ->. exists a. split; [reflexivity | apply Qle_refl].
    + intros z [].
    + now left.
  - destruct (IH (higher acc n)) as (IHacc & IHin & IHwhich).
    assert (Hstep : exists h, higher acc n = Some h /\ n <= h /\
                              (forall a, acc = Some a -> a <= h) /\
                              (higher acc n = acc \/ h = n)).
    { destruct acc as [a|]; cbn.
      - destruct (Qle_bool n a) eqn:E.
        + exists a. apply Qle_bool_iff in E. repeat split; auto.
          intros a' Ha'. injection Ha' as <-. apply Qle_refl.
        + exists n. repeat split; auto; [apply Qle_refl|].
          intros a' Ha'. injection Ha' as <-.
          apply Qlt_le_weak, Qnot_le_lt. intros Hle.
          apply Qle_bool_iff in Hle. congruence.
      - exists n. repeat split; auto; [apply Qle_refl|]. discriminate. }
    destruct Hstep as (h & Hh & Hn & Hacc & Hwhich).
    destruct (IHacc h Hh) as (m & Hm & Hhm).
    split; [|split].
    + intros a Ha. exists m. split; [exact Hm|]. apply Qle_trans with h; auto.
    + intros z [<- | Hz].
      * exists m. split; [exact Hm|]. apply Qle_trans with h; auto.
      * now apply IHin.
    + destruct IHwhich as [Hsame | (z & Hz & Hzm)].
      * destruct Hwhich as [Hkeep | ->].
        -- left. congruence.
        -- right. exists n. split; [now left | congruence].
      * right. exists z. split; [now right | exact Hzm].
Qed.

(** [maxZ] is one more than the greatest of 100 and the z-indexes. *)
Lemma maxZ_spec (ps : list PhotoData.t) :
  exists m, maxZ ps = m + 1 /\
            100 <= m /\
            (forall q, In q ps -> PhotoData.zIndex q <= m) /\
            (m = 100 \/ exists q, In q ps /\ m = PhotoData.zIndex q).
Proof.
  unfold maxZ, Math_max.
  destruct (higher_fold (map PhotoData.zIndex ps ++ [100]) None) as (_ & Hin & Hwhich).
  destruct (Hin 100) as (m & Hm & H100); [apply in_or_app; right; now left|].
  rewrite Hm. exists m. split; [reflexivity|]. split; [exact H100|]. split.
  - intros q Hq.
    destruct (Hin (PhotoData.zIndex q)) as (m' & Hm' & Hle).
    { apply in_or_app. left. now apply in_map. }
    congruence.
  - destruct Hwhich as [Hnone | (z & Hz & Hzm)]; [congruence|].
    assert (m = z) by congruence. subst z.
    apply in_app_or in Hz. destruct Hz as [Hz | [Hz | []]].
    + right. apply in_map_iff in Hz. destruct Hz as (q & Hq & Hqin).
      exists q. split; [exact Hqin | now symmetry].
    + left. now symmetry.
Qed.

(** C10. A press on a wall photo gives the wall photos of its id the
    z-index [m + 1], where [m] is the greatest of 100 and the z-indexes on
    the wall before the press; that is at least 101 and strictly above the
    z-index of every wall photo with another id.  Nothing else changes:
    the other fields of the pressed photo, the other photos, the staged
    photo and the camera error stay as they were. *)
Theorem wall_press_brings_to_front (e : MouseEvent) (photo : PhotoData.t) (s : AppState) :
  let s' := handleWallMouseDown e photo s in
  exists m,
    100 <= m /\
    (forall q, In q (photos s) -> PhotoData.zIndex q <= m) /\
    (m = 100 \/ exists q, In q (photos s) /\ m = PhotoData.zIndex q) /\
    (forall i p, nth_error (photos s) i = Some p -> PhotoData.id p = PhotoData.id photo ->
       exists p', nth_error (photos s') i = Some p' /\
                  PhotoData.zIndex p' = m + 1 /\
                  same_but_zIndex p p' /\
                  101 <= PhotoData.zIndex p' /\
                  (forall j q, nth_error (photos s') j = Some q ->
                               PhotoData.id q <> PhotoData.id photo ->
                               PhotoData.zIndex q < PhotoData.zIndex p')) /\
    (forall i p, nth_error (photos s) i = Some p -> PhotoData.id p <> PhotoData.id photo ->
       nth_error (photos s') i = Some p) /\
    List.length (photos s') = List.length (photos s) /\
    stagedPhoto s' = stagedPhoto s /\
    cameraError s' = cameraError s.
Proof.
  cbv zeta.
  destruct (maxZ_spec (photos s)) as (m & Hmax & H100 & Hle & Hwhich).
  exists m. split; [exact H100|]. split; [exact Hle|]. split; [exact Hwhich|].
  unfold handleWallMouseDown. cbn. rewrite Hmax.
  split; [|split; [|split; [|split]]].
  - intros i p Hi Hid. rewrite nth_error_map, Hi. cbn.
    rewrite (eqb_id_true p _ Hid).
    eexists. split; [reflexivity|]. cbn.
    split; [reflexivity|]. split; [repeat split|]. split; [lra|].
    intros j q Hj Hqid. rewrite nth_error_map in Hj.
    destruct (nth_error (photos s) j) as [q0|] eqn:Hq0; [|discriminate].
    cbn in Hj. injection Hj as Hj.
    destruct (String.eqb (PhotoData.id q0) (PhotoData.id photo)) eqn:E.
    + subst q. cbn in Hqid. apply String.eqb_eq in E. contradiction.
    + subst q. apply nth_error_In in Hq0. specialize (Hle q0 Hq0). lra.
  - intros i p Hi Hid. rewrite nth_error_map, Hi. cbn.
    now rewrite (eqb_id_false p _ Hid).
  - apply length_map.
  - reflexivity.
  - reflexivity.
Qed.

Lemma wall_press_brings_to_front_witness :
  exists p', nth_error (photos (handleWallMouseDown Sample.press Sample.photoA Sample.wall)) 0
             = Some p' /\
             PhotoData.zIndex p' = 103 + 1 /\
             same_but_zIndex Sample.photoA p' /\
             nth_error (photos (handleWallMouseDown Sample.press Sample.photoA Sample.wall)) 1
             = Some Sample.photoB.
Proof.
  destruct (wall_press_brings_to_front Sample.press Sample.photoA Sample.wall)
    as (m & _ & _ & _ & Hhit & Hmiss & _).
  destruct (Hhit 0%nat Sample.photoA eq_refl eq_refl) as (p' & Hp' & _ & Hsame & _).
  exists p'. split; [exact Hp'|].
  split; [injection Hp' as <-; reflexivity|].
  split; [exact Hsame|].
  apply (Hmiss 1%nat Sample.photoB); [reflexivity | discriminate].
Defined.

(** * Further properties of the code *)

(** ** Camera setup *)



(** ** The centre crop *)

Lemma Math_min_spec (a b : number) :
  Math_min a b <= a /\ Math_min a b <= b /\ (Math_min a b = a \/ Math_min a b = b).
Proof.
  unfold Math_min. destruct (Qle_bool a b) eqn:E.
  - apply Qle_bool_iff in E. repeat split; auto; apply Qle_refl.
  - assert (b < a).
    { apply Qnot_le_lt. intros H. apply Qle_bool_iff in H. congruence. }
    repeat split; auto; [now apply Qlt_le_weak | apply Qle_refl].
Qed.

(** X2. The picture [takePhoto] draws is the largest centred square of the
    video frame: the source rectangle is a square whose side is the smaller
    of the frame's width and height, it lies inside the frame with equal
    margins on opposite sides and no margin along the shorter dimension,
    and it is drawn unscaled onto a canvas of the same size. *)
Theorem centerCrop_largest_centred_square (vid : VideoElement) :
  let c := centerCrop vid in
  (canvasSize c = videoWidth vid \/ canvasSize c = videoHeight vid) /\
  canvasSize c <= videoWidth vid /\
  canvasSize c <= videoHeight vid /\
  sWidth c = canvasSize c /\ sHeight c = canvasSize c /\
  dWidth c = canvasSize c /\ dHeight c = canvasSize c /\
  dx c = 0 /\ dy c = 0 /\
  0 <= sx c /\ 0 <= sy c /\
  sx c + sWidth c <= videoWidth vid /\
  sy c + sHeight c <= videoHeight vid /\
  videoWidth vid - (sx c + sWidth c) == sx c /\
  videoHeight vid - (sy c + sHeight c) == sy c /\
  (sx c == 0 \/ sy c == 0).
Proof.
  cbv zeta. unfold centerCrop. cbn.
  destruct (Math_min_spec (videoWidth vid) (videoHeight vid)) as (Hw & Hh & Hor).
  set (m := Math_min (videoWidth vid) (videoHeight vid)) in *.
  split; [exact Hor|]. split; [exact Hw|]. split; [exact Hh|].
  repeat (split; [reflexivity|]).
  assert (Ex : (videoWidth vid - m) / 2 == (videoWidth vid - m) * (1 # 2)) by field.
  assert (Ey : (videoHeight vid - m) / 2 == (videoHeight vid - m) * (1 # 2)) by field.
  split; [rewrite Ex; lra|]. split; [rewrite Ey; lra|].
  split; [rewrite Ex; lra|]. split; [rewrite Ey; lra|].
  split; [rewrite Ex; lra|]. split; [rewrite Ey; lra|].
  destruct Hor as [-> | ->]; [left | right]; field.
Qed.

(** ** Releasing, deleting and late completions *)

Lemma moves_without_drag (es : list MouseEvent) (s : AppState) :
  dragState s = None -> mouseMoves es s = s.
Proof.
  intros H. unfold mouseMoves. induction es as [|e es IH]; cbn.
  - reflexivity.
  - now rewrite (move_without_drag e s H).
Qed.

(** X3. Releasing the mouse ends the drag and moves nothing: the photos
    stay where the last move put them, and mouse moves that come after the
    release leave the whole state unchanged. *)
Theorem release_drops_photo_in_place (es later : list MouseEvent) (e : MouseEvent)
        (s : AppState) :
  let dropped := handleGlobalMouseUp (mouseMoves (es ++ [e]) s) in
  dragState dropped = None /\
  photos dropped = photos (handleGlobalMouseMove e s) /\
  stagedPhoto dropped = stagedPhoto s /\
  cameraError dropped = cameraError s /\
  mouseMoves later dropped = dropped.
Proof.
  cbv zeta. rewrite moves_then_move.
  destruct (move_keeps_rest e s) as (Hst & Herr & _ & _).
  repeat split; try assumption.
  now apply moves_without_drag.
Qed.

Lemma map_after_filter_id (n : string) (f : PhotoData.t -> PhotoData.t)
      (l : list PhotoData.t) :
  map (fun p => if String.eqb (PhotoData.id p) n then f p else p)
      (filter (fun p => negb (String.eqb (PhotoData.id p) n)) l)
  = filter (fun p => negb (String.eqb (PhotoData.id p) n)) l.
Proof.
  induction l as [|p l IH]; cbn; [reflexivity|].
  destruct (String.eqb (PhotoData.id p) n) eqn:E; cbn; [exact IH|].
  now rewrite E, IH.
Qed.

(** X4. Whatever is still pending for a photo when it is deleted does
    nothing to the wall afterwards: a caption that arrives, the developing
    timer, a regenerated caption, a saved edit and the moves of a drag of
    that photo all leave the wall as the deletion left it. *)
Theorem completions_after_delete_are_void
        (n c : string) (updates : Partial.t) (e : MouseEvent) (s : AppState) :
  let gone := deletePhoto n s in
  photos (captionResolved n c gone) = photos gone /\
  photos (developTimerFired n gone) = photos gone /\
  updatePhoto n updates gone = gone /\
  (forall d, dragState s = Some d -> DragState.id d = n ->
             handleGlobalMouseMove e gone = gone).
Proof.
  cbv zeta. split; [|split; [|split]].
  - unfold captionResolved, deletePhoto, updateFn. cbn. apply map_after_filter_id.
  - unfold developTimerFired, deletePhoto, clearDevFn. cbn. apply map_after_filter_id.
  - unfold updatePhoto, deletePhoto, setPhotos. cbn. now rewrite map_after_filter_id.
  - intros d Hd Hid. unfold handleGlobalMouseMove, deletePhoto. cbn. rewrite Hd.
    unfold setPhotos. cbn. rewrite Hid. now rewrite map_after_filter_id.
Qed.

Lemma completions_after_delete_are_void_witness :
  handleGlobalMouseMove Sample.move1 (deletePhoto "1700000000002" Sample.dragging)
  = deletePhoto "1700000000002" Sample.dragging.
Proof.
  destruct (completions_after_delete_are_void "1700000000002" "late"
              Partial.empty Sample.move1 Sample.dragging) as (_ & _ & _ & Hmove).
  apply (Hmove (DragState.mk "1700000000002" 310 140 (Position.mk 300 120)));
    reflexivity.
Defined.

(** X5. Deleting is idempotent and deletions commute: deleting an id twice
    is deleting it once, and two deletions give the same wall in either
    order. *)
Theorem deletePhoto_idempotent_commutes (a b : string) (s : AppState) :
  deletePhoto a (deletePhoto a s) = deletePhoto a s /\
  deletePhoto a (deletePhoto b s) = deletePhoto b (deletePhoto a s).
Proof.
  unfold deletePhoto, setPhotos. cbn. split; f_equal.
  - induction (photos s) as [|p l IH]; cbn; [reflexivity|].
    destruct (String.eqb (PhotoData.id p) a) eqn:E; cbn; [exact IH|].
    now rewrite E, IH.
  - induction (photos s) as [|p l IH]; cbn; [reflexivity|].
    destruct (String.eqb (PhotoData.id p) a) eqn:Ea,
             (String.eqb (PhotoData.id p) b) eqn:Eb; cbn;
      rewrite ?Ea, ?Eb; cbn; now rewrite ?IH.
Qed.

(** ** Updates made through the Polaroid *)

Lemma spread_spread (p : PhotoData.t) (u1 u2 : Partial.t) :
  spread (spread p u1) u2 = spread p (merge u1 u2).
Proof.
  destruct u1 as [i1 d1 c1 t1 p1 z1 v1 l1], u2 as [i2 d2 c2 t2 p2 z2 v2 l2].
  unfold spread, merge. cbn.
  destruct i2, d2, c2, t2, p2, z2, v2, l2; reflexivity.
Qed.

(** X6. Two updates of the same photo compose into one: when the first
    update carries no [id] key, [updatePhoto id u2] after [updatePhoto id u1]
    is [updatePhoto id { ...u1, ...u2 }]; an update without keys changes
    nothing, and an update never changes the number of wall photos. *)
Theorem updatePhoto_composes (id : string) (u1 u2 : Partial.t) (s : AppState) :
  Partial.id u1 = None ->
  updatePhoto id u2 (updatePhoto id u1 s) = updatePhoto id (merge u1 u2) s /\
  updatePhoto id Partial.empty s = s /\
  List.length (photos (updatePhoto id u1 s)) = List.length (photos s).
Proof.
  intros Hid. unfold updatePhoto, setPhotos. cbn.
  split; [|split].
  - f_equal. rewrite map_map. apply map_ext. intros p.
    destruct (String.eqb (PhotoData.id p) id) eqn:E.
    + assert (Hp : PhotoData.id (spread p u1) = PhotoData.id p).
      { unfold spread. cbn. now rewrite Hid. }
      rewrite Hp, E. apply spread_spread.
    + now rewrite E.
  - destruct s as [ps st ce ds]. cbn. f_equal.
    induction ps as [|p ps IH]; cbn; [reflexivity|].
    rewrite IH. destruct (String.eqb (PhotoData.id p) id); [|reflexivity].
    now destruct p.
  - apply length_map.
Qed.

Lemma updatePhoto_composes_witness :
  updatePhoto "1700000000001"
    (Partial.with_isLoadingCaption false (Partial.with_caption "dusk" Partial.empty))
    (updatePhoto "1700000000001" (Partial.with_isLoadingCaption true Partial.empty) Sample.wall)
  = updatePhoto "1700000000001"
      (merge (Partial.with_isLoadingCaption true Partial.empty)
             (Partial.with_isLoadingCaption false (Partial.with_caption "dusk" Partial.empty)))
      Sample.wall.
Proof.
  apply (updatePhoto_composes "1700000000001"
           (Partial.with_isLoadingCaption true Partial.empty)
           (Partial.with_isLoadingCaption false (Partial.with_caption "dusk" Partial.empty))
           Sample.wall eq_refl).
Defined.

(** ** Captions *)

Lemma resolved_value_nonempty (env : Gemini.Env) (base64Image v : string) :
  Gemini.generateCaption env base64Image = Gemini.Resolved v -> v <> EmptyString.
Proof.
  unfold Gemini.generateCaption.
  destruct (negb (Gemini.truthy (Gemini.API_KEY env))).
  { intros H. injection H as <-. discriminate. }
  destruct (Gemini.generateContent env _ _) as [r|]; cbn.
  - destruct (Gemini.text r) as [t|]; cbn.
    + destruct (String.eqb (Gemini.trim t) EmptyString) eqn:E;
        intros H; injection H as <-; [discriminate | now apply String.eqb_neq].
    + intros H. injection H as <-. discriminate.
  - intros H. injection H as <-. discriminate.
Qed.

Lemma captionText_of_caption (p : PhotoData.t) :
  PhotoData.isLoadingCaption p = false ->
  PhotoData.caption p <> EmptyString ->
  Polaroid.captionText p = PhotoData.caption p.
Proof.
  intros Hl Hc. unfold Polaroid.captionText. rewrite Hl.
  apply String.eqb_neq in Hc. now rewrite Hc.
Qed.

(** X7. Regenerating a caption: the click marks the wall photos of that id
    as loading, so they show "Developing thought..." with the old caption
    kept underneath; when [generateCaption] has resolved, those photos
    carry its value as caption, are no longer loading and show that value.
    Nothing else about them changes, photos with another id are untouched,
    and the final state is the one the arrival alone would produce. *)
Theorem regenerate_replaces_caption
        (env : Gemini.Env) (photo : PhotoData.t) (v : string) (s : AppState) :
  Gemini.generateCaption env (PhotoData.dataUrl photo) = Gemini.Resolved v ->
  let props := Polaroid.wallProps photo in
  let s1 := Polaroid.handleRegenerate_start props s in
  let s2 := Polaroid.handleRegenerate_resume props v s1 in
  (forall i p, nth_error (photos s) i = Some p -> PhotoData.id p = PhotoData.id photo ->
     exists p1 p2,
       nth_error (photos s1) i = Some p1 /\
       PhotoData.isLoadingCaption p1 = true /\
       PhotoData.caption p1 = PhotoData.caption p /\
       Polaroid.captionText p1 = "Developing thought..."%string /\
       nth_error (photos s2) i = Some p2 /\
       caption_delivered v p p2 /\
       Polaroid.captionText p2 = v) /\
  (forall i p, nth_error (photos s) i = Some p -> PhotoData.id p <> PhotoData.id photo ->
     nth_error (photos s1) i = Some p /\ nth_error (photos s2) i = Some p) /\
  s2 = Polaroid.handleRegenerate_resume props v s.
Proof.
  intros Hv. cbv zeta.
  apply resolved_value_nonempty in Hv.
  unfold Polaroid.handleRegenerate_start, Polaroid.handleRegenerate_resume. cbn.
  split; [|split].
  - intros i p Hi Hid. rewrite !nth_error_map, Hi. cbn.
    rewrite (eqb_id_true p _ Hid). cbn. rewrite (eqb_id_true p _ Hid).
    eexists. eexists. split; [reflexivity|]. cbn.
    split; [reflexivity|]. split; [reflexivity|]. split; [reflexivity|].
    split; [reflexivity|]. split; [repeat split|].
    apply captionText_of_caption; [reflexivity | exact Hv].
  - intros i p Hi Hid. rewrite !nth_error_map, Hi. cbn.
    rewrite (eqb_id_false p _ Hid). cbn. rewrite (eqb_id_false p _ Hid).
    split; reflexivity.
  - unfold updatePhoto, setPhotos. cbn. f_equal.
    rewrite map_map. apply map_ext. intros p.
    destruct (String.eqb (PhotoData.id p) (PhotoData.id photo)) eqn:E; cbn; now rewrite E.
Qed.

Lemma regenerate_replaces_caption_witness :
  exists p2,
    nth_error (photos (Polaroid.handleRegenerate_resume (Polaroid.wallProps Sample.photoA)
                         "Warm light on a quiet day."
                         (Polaroid.handleRegenerate_start (Polaroid.wallProps Sample.photoA)
                                                          Sample.wall))) 0 = Some p2 /\
    caption_delivered "Warm light on a quiet day." Sample.photoA p2 /\
    Polaroid.captionText p2 = "Warm light on a quiet day."%string.
Proof.
  destruct (regenerate_replaces_caption Sample.answering Sample.photoA
              "Warm light on a quiet day." Sample.wall eq_refl) as (Hhit & _).
  destruct (Hhit 0%nat Sample.photoA eq_refl eq_refl)
    as (p1 & p2 & _ & _ & _ & _ & Hp2 & Hdel & Htext).
  exists p2. split; [exact Hp2 | split; [exact Hdel | exact Htext]].
Defined.

(** X8. A photo that is still in the camera cannot be changed through its
    Polaroid: saving an edit, any key, regenerating and deleting leave the
    application state as it is, and neither the download and delete
    buttons nor the edit and regenerate buttons are rendered for it. *)
Theorem staged_polaroid_is_inert
        (p : PhotoData.t) (l : Polaroid.Local) (e : Polaroid.KeyboardEvent)
        (c : string) (s : AppState) :
  let props := Polaroid.stagedProps p in
  snd (Polaroid.saveEdit props (l, s)) = s /\
  snd (snd (Polaroid.handleKeyDown props e (l, s))) = s /\
  Polaroid.handleRegenerate_start props s = s /\
  Polaroid.handleRegenerate_resume props c s = s /\
  Polaroid.handleDelete props s = s /\
  Polaroid.toolsVisible props l = false /\
  Polaroid.captionActionsVisible props l = false.
Proof.
  cbv zeta. repeat split.
  - unfold Polaroid.handleKeyDown.
    destruct (String.eqb (Polaroid.key e) "Enter" && negb (Polaroid.shiftKey e));
      [reflexivity|].
    destruct (String.eqb (Polaroid.key e) "Escape"); reflexivity.
  - unfold Polaroid.captionActionsVisible. cbn. apply andb_false_r.
Qed.

Ltac key_cases :=
  try reflexivity; try congruence; try discriminate;
  try (match goal with H : _ /\ _ |- _ => destruct H; congruence end);
  try (match goal with H : _ <> _ |- _ => exfalso; apply H; reflexivity end).

(** X9. In the caption editor only a plain Enter reaches the application
    state, and it does what the save button does; Escape does what the
    cancel button does; Shift+Enter and every other key change neither the
    application state nor the editor.  The default action is prevented for
    the plain Enter only. *)
Theorem handleKeyDown_enter_saves_escape_cancels
        (props : Polaroid.Props) (e : Polaroid.KeyboardEvent)
        (l : Polaroid.Local) (s : AppState) :
  let r := Polaroid.handleKeyDown props e (l, s) in
  (Polaroid.key e = "Enter"%string -> Polaroid.shiftKey e = false ->
   r = (true, Polaroid.saveEdit props (l, s))) /\
  (Polaroid.key e = "Enter"%string -> Polaroid.shiftKey e = true ->
   r = (false, (l, s))) /\
  (Polaroid.key e = "Escape"%string -> r = (false, Polaroid.cancelEdit props (l, s))) /\
  (Polaroid.key e <> "Enter"%string -> Polaroid.key e <> "Escape"%string ->
   r = (false, (l, s))) /\
  (snd (snd r) <> s -> Polaroid.key e = "Enter"%string /\ Polaroid.shiftKey e = false) /\
  (fst r = true <-> Polaroid.key e = "Enter"%string /\ Polaroid.shiftKey e = false).
Proof.
  cbv zeta. unfold Polaroid.handleKeyDown.
  destruct (String.eqb (Polaroid.key e) "Enter") eqn:Ee;
    [apply String.eqb_eq in Ee | apply String.eqb_neq in Ee];
    destruct (Polaroid.shiftKey e) eqn:Es; cbn;
    (destruct (String.eqb (Polaroid.key e) "Escape") eqn:Ec;
     [apply String.eqb_eq in Ec | apply String.eqb_neq in Ec]);
    try (rewrite Ee in Ec; discriminate Ec); cbn;
    repeat split; intros; key_cases.
Qed.

Lemma handleKeyDown_enter_saves_escape_cancels_witness :
  Polaroid.handleKeyDown (Polaroid.wallProps Sample.photoA) Session.enter
                         (Sample.editing, Sample.wall)
  = (true, Polaroid.saveEdit (Polaroid.wallProps Sample.photoA) (Sample.editing, Sample.wall)) /\
  Polaroid.handleKeyDown (Polaroid.wallProps Sample.photoA) Session.shiftEnter
                         (Sample.editing, Sample.wall)
  = (false, (Sample.editing, Sample.wall)) /\
  Polaroid.handleKeyDown (Polaroid.wallProps Sample.photoA) Session.letter
                         (Sample.editing, Sample.wall)
  = (false, (Sample.editing, Sample.wall)).
Proof.
  destruct (handleKeyDown_enter_saves_escape_cancels (Polaroid.wallProps Sample.photoA)
              Session.enter Sample.editing Sample.wall) as (Henter & _).
  destruct (handleKeyDown_enter_saves_escape_cancels (Polaroid.wallProps Sample.photoA)
              Session.shiftEnter Sample.editing Sample.wall) as (_ & Hshift & _).
  destruct (handleKeyDown_enter_saves_escape_cancels (Polaroid.wallProps Sample.photoA)
              Session.letter Sample.editing Sample.wall) as (_ & _ & _ & Hother & _).
  split; [|split].
  - apply Henter; reflexivity.
  - apply Hshift; reflexivity.
  - apply Hother; discriminate.
Defined.



(** ** The text sent to and received from the caption service *)

Lemma trimStart_first (s : string) (c : ascii) :
  first_char (Gemini.trimStart s) = Some c -> Gemini.isWhiteSpace c = false.
Proof.
  induction s as [|a s IH]; cbn; [discriminate|].
  destruct (Gemini.isWhiteSpace a) eqn:E; [exact IH|].
  cbn. intros H. injection H as <-. exact E.
Qed.

Lemma trimEnd_first (s : string) (c : ascii) :
  first_char (Gemini.trimEnd s) = Some c -> first_char s = Some c.
Proof.
  destruct s as [|a s]; cbn; [discriminate|].
  destruct (Gemini.trimEnd s); [|now cbn].
  destruct (Gemini.isWhiteSpace a); [discriminate | now cbn].
Qed.

Lemma trimEnd_last (s : string) (c : ascii) :
  last_char (Gemini.trimEnd s) = Some c -> Gemini.isWhiteSpace c = false.
Proof.
  induction s as [|a s IH]; cbn; [discriminate|].
  destruct (Gemini.trimEnd s) as [|b r].
  - destruct (Gemini.isWhiteSpace a) eqn:E; cbn; [discriminate|].
    intros H. injection H as <-. exact E.
  - exact IH.
Qed.

Lemma trim_clean_ends (t : string) (c : ascii) :
  first_char (Gemini.trim t) = Some c \/ last_char (Gemini.trim t) = Some c ->
  Gemini.isWhiteSpace c = false.
Proof.
  unfold Gemini.trim. intros [H | H].
  - apply trimEnd_first in H. now apply trimStart_first in H.
  - now apply trimEnd_last in H.
Qed.

(** X11. Whatever the service answers, the caption [generateCaption]
    resolves with is not empty and neither begins nor ends with white
    space. *)
Theorem generated_caption_has_clean_ends (env : Gemini.Env) (base64Image v : string) :
  Gemini.generateCaption env base64Image = Gemini.Resolved v ->
  v <> EmptyString /\
  (forall c, first_char v = Some c -> Gemini.isWhiteSpace c = false) /\
  (forall c, last_char v = Some c -> Gemini.isWhiteSpace c = false).
Proof.
  intros Hv. split; [exact (resolved_value_nonempty env base64Image v Hv)|].
  revert Hv. unfold Gemini.generateCaption.
  assert (Hlit : forall w : string,
            w = "Memories are timeless..."%string \/
            w = "A moment frozen in time."%string \/
            w = "A beautiful moment captured."%string ->
            (forall c, first_char w = Some c -> Gemini.isWhiteSpace c = false) /\
            (forall c, last_char w = Some c -> Gemini.isWhiteSpace c = false)).
  { intros w [-> | [-> | ->]]; split; intros c H; injection H as <-; reflexivity. }
  destruct (negb (Gemini.truthy (Gemini.API_KEY env))).
  { intros H. injection H as <-. apply Hlit. auto. }
  destruct (Gemini.generateContent env _ _) as [r|]; cbn.
  - destruct (Gemini.text r) as [t|]; cbn.
    + destruct (String.eqb (Gemini.trim t) EmptyString);
        intros H; injection H as <-; [apply Hlit; auto|].
      split; intros c Hc; apply (trim_clean_ends t c); auto.
    + intros H. injection H as <-. apply Hlit. auto.
  - intros H. injection H as <-. apply Hlit. auto.
Qed.

Lemma generated_caption_has_clean_ends_witness :
  first_char "Warm light on a quiet day." = Some "W"%char /\
  Gemini.isWhiteSpace "W" = false /\
  Gemini.isWhiteSpace "." = false.
Proof.
  destruct (generated_caption_has_clean_ends Sample.answering "data:image/jpeg;base64,AAAA"
              "Warm light on a quiet day." eq_refl) as (_ & Hfirst & Hlast).
  split; [reflexivity|]. split.
  - apply Hfirst. reflexivity.
  - apply Hlast. reflexivity.
Defined.

Lemma strip_prefix_append (pre s : string) :
  Gemini.strip_prefix pre (pre ++ s)%string = Some s.
Proof.
  induction pre as [|a pre IH]; cbn; [reflexivity|].
  now rewrite Ascii.eqb_refl.
Qed.

Lemma strip_prefix_some (pre s r : string) :
  Gemini.strip_prefix pre s = Some r -> s = (pre ++ r)%string.
Proof.
  revert s. induction pre as [|a pre IH]; intros s; cbn.
  - intros H. now injection H as <-.
  - destruct s as [|b s]; [discriminate|].
    destruct (Ascii.eqb a b) eqn:E; [|discriminate].
    apply Ascii.eqb_eq in E. subst b. intros H. now rewrite (IH s H).
Qed.

(** X12. [cleanBase64] removes the data-URL header of a PNG, JPEG or WebP
    image and returns exactly the payload behind it; the header is removed
    once, at the start only; any input that does not begin with one of the
    three headers is passed on unchanged, so the result is always a suffix
    of the input. *)
Theorem cleanBase64_strips_header (payload base64Image : string) :
  Gemini.cleanBase64 ("data:image/png;base64," ++ payload) = payload /\
  Gemini.cleanBase64 ("data:image/jpeg;base64," ++ payload) = payload /\
  Gemini.cleanBase64 ("data:image/webp;base64," ++ payload) = payload /\
  (exists header, base64Image = (header ++ Gemini.cleanBase64 base64Image)%string /\
     (header = EmptyString \/ header = "data:image/png;base64,"%string \/
      header = "data:image/jpeg;base64,"%string \/
      header = "data:image/webp;base64,"%string)) /\
  ((forall rest, base64Image <> ("data:image/" ++ rest)%string) ->
   Gemini.cleanBase64 base64Image = base64Image).
Proof.
  split; [|split; [|split; [|split]]].
  - unfold Gemini.cleanBase64. now rewrite strip_prefix_append.
  - unfold Gemini.cleanBase64.
    rewrite (strip_prefix_append "data:image/jpeg;base64," payload). reflexivity.
  - unfold Gemini.cleanBase64.
    rewrite (strip_prefix_append "data:image/webp;base64," payload). reflexivity.
  - unfold Gemini.cleanBase64.
    destruct (Gemini.strip_prefix "data:image/png;base64," base64Image) as [r|] eqn:E1.
    { eexists. split; [exact (strip_prefix_some _ _ _ E1) | auto]. }
    destruct (Gemini.strip_prefix "data:image/jpeg;base64," base64Image) as [r|] eqn:E2.
    { eexists. split; [exact (strip_prefix_some _ _ _ E2) | auto]. }
    destruct (Gemini.strip_prefix "data:image/webp;base64," base64Image) as [r|] eqn:E3.
    { eexists. split; [exact (strip_prefix_some _ _ _ E3) | auto]. }
    exists EmptyString. split; [reflexivity | auto].
  - intros Hno. unfold Gemini.cleanBase64.
    destruct (Gemini.strip_prefix "data:image/png;base64," base64Image) as [r|] eqn:E1.
    { apply strip_prefix_some in E1. exfalso. apply (Hno ("png;base64," ++ r)%string).
      exact E1. }
    destruct (Gemini.strip_prefix "data:image/jpeg;base64," base64Image) as [r|] eqn:E2.
    { apply strip_prefix_some in E2. exfalso. apply (Hno ("jpeg;base64," ++ r)%string).
      exact E2. }
    destruct (Gemini.strip_prefix "data:image/webp;base64," base64Image) as [r|] eqn:E3.
    { apply strip_prefix_some in E3. exfalso. apply (Hno ("webp;base64," ++ r)%string).
      exact E3. }
    reflexivity.
Qed.

Lemma cleanBase64_strips_header_witness :
  Gemini.cleanBase64 "/9j/4AAQSkZJRg==" = "/9j/4AAQSkZJRg=="%string.
Proof.
  destruct (cleanBase64_strips_header "" "/9j/4AAQSkZJRg==") as (_ & _ & _ & _ & Hraw).
  apply Hraw. intros rest H. discriminate H.
Defined.

(** ** Invariants of the transition system *)

Lemma updateFn_placement (n c : string) (p : PhotoData.t) :
  PhotoData.zIndex (updateFn n c p) = PhotoData.zIndex p /\
  PhotoData.position (updateFn n c p) = PhotoData.position p.
Proof.
  unfold updateFn. destruct (String.eqb (PhotoData.id p) n); split; reflexivity.
Qed.

Lemma clearDevFn_placement (n : string) (p : PhotoData.t) :
  PhotoData.zIndex (clearDevFn n p) = PhotoData.zIndex p /\
  PhotoData.position (clearDevFn n p) = PhotoData.position p.
Proof.
  unfold clearDevFn. destruct (String.eqb (PhotoData.id p) n); split; reflexivity.
Qed.

(** A wall rewritten photo by photo stays stacked from 100 upwards when
    the rewriting does not lower a z-index below 100. *)
Lemma stacked_map (f : PhotoData.t -> PhotoData.t) (l : list PhotoData.t) :
  (forall p, 100 <= PhotoData.zIndex p -> 100 <= PhotoData.zIndex (f p)) ->
  (forall p, In p l -> 100 <= PhotoData.zIndex p) ->
  forall p, In p (map f l) -> 100 <= PhotoData.zIndex p.
Proof.
  intros Hf Hl p Hp. apply in_map_iff in Hp. destruct Hp as (q & <- & Hq).
  apply Hf. now apply Hl.
Qed.

Lemma updatePhoto_well_formed (id : string) (u : Partial.t) (s : AppState) :
  Partial.zIndex u = None -> well_formed s -> well_formed (updatePhoto id u s).
Proof.
  intros Hu (Hwall & Hstaged & Herr). unfold updatePhoto.
  split; [|split]; cbn; [|exact Hstaged|exact Herr].
  apply stacked_map; [|exact Hwall].
  intros p Hp. destruct (String.eqb (PhotoData.id p) id); [|exact Hp].
  unfold spread. cbn. now rewrite Hu.
Qed.

Lemma maxZ_above_100 (ps : list PhotoData.t) : 100 <= maxZ ps.
Proof.
  destruct (maxZ_spec ps) as (m & -> & H100 & _). lra.
Qed.

Lemma dispatch_well_formed (ev : Event) (s : AppState) :
  well_formed s -> well_formed (dispatch ev s).
Proof.
  intros Hs. pose proof Hs as (Hwall & Hstaged & Herr).
  destruct ev as [preferred fallback video | env | n c | n | container e | e i
                 | e | | i text | i | n c | i]; cbn.
  - (* camera start *)
    unfold startCamera.
    destruct preferred, fallback; cbn; (split; [exact Hwall | split; [exact Hstaged | auto]]).
  - (* shutter *)
    destruct (takePhoto_cases env s) as [(-> & _) | (_ & -> & _)]; [exact Hs|].
    split; [|split]; cbn; [exact Hwall | | exact Herr].
    intros p H. injection H as <-. split; reflexivity.
  - (* caption arrives *)
    unfold captionResolved. split; [|split]; cbn; [| |exact Herr].
    + apply stacked_map; [|exact Hwall].
      intros p Hp. now rewrite (proj1 (updateFn_placement n c p)).
    + destruct (stagedPhoto s) as [sp|] eqn:Esp; [|discriminate].
      destruct (Hstaged sp eq_refl) as (Hz & Hpos).
      destruct (updateFn_placement n c sp) as (Hz' & Hpos').
      destruct (String.eqb (PhotoData.id sp) n); intros p H; injection H as <-;
        split; congruence.
  - (* developing timer *)
    unfold developTimerFired. split; [|split]; cbn; [| |exact Herr].
    + apply stacked_map; [|exact Hwall].
      intros p Hp. now rewrite (proj1 (clearDevFn_placement n p)).
    + destruct (stagedPhoto s) as [sp|] eqn:Esp; [|discriminate].
      destruct (Hstaged sp eq_refl) as (Hz & Hpos).
      destruct (clearDevFn_placement n sp) as (Hz' & Hpos').
      destruct (String.eqb (PhotoData.id sp) n); intros p H; injection H as <-;
        split; congruence.
  - (* press on the staged photo *)
    unfold handleStagedMouseDown.
    destruct (stagedPhoto s) as [sp|] eqn:Esp; [|exact Hs].
    destruct container as [rect|]; [|exact Hs].
    split; [|split]; cbn; [|discriminate|exact Herr].
    intros p Hp. apply in_app_or in Hp. destruct Hp as [Hp | [<- | []]].
    + now apply Hwall.
    + cbn. apply Qle_refl.
  - (* press on a wall photo *)
    unfold on_wall_photo. destruct (nth_error (photos s) i) as [photo|]; [|exact Hs].
    unfold handleWallMouseDown. split; [|split]; cbn; [|exact Hstaged|exact Herr].
    apply stacked_map; [|exact Hwall].
    intros p Hp. destruct (String.eqb (PhotoData.id p) (PhotoData.id photo)); [|exact Hp].
    cbn. apply maxZ_above_100.
  - (* move *)
    unfold handleGlobalMouseMove. destruct (dragState s) as [d|]; [|exact Hs].
    split; [|split]; cbn; [|exact Hstaged|exact Herr].
    apply stacked_map; [|exact Hwall].
    intros p Hp. now destruct (String.eqb (PhotoData.id p) (DragState.id d)).
  - (* release *)
    exact Hs.
  - (* saved edit *)
    unfold on_wall_photo. destruct (nth_error (photos s) i) as [photo|]; [|exact Hs].
    cbn. now apply updatePhoto_well_formed.
  - (* regenerate clicked *)
    unfold on_wall_photo. destruct (nth_error (photos s) i) as [photo|]; [|exact Hs].
    unfold Polaroid.handleRegenerate_start. cbn. now apply updatePhoto_well_formed.
  - (* regenerated caption arrives *)
    now apply updatePhoto_well_formed.
  - (* delete *)
    unfold on_wall_photo. destruct (nth_error (photos s) i) as [photo|]; [|exact Hs].
    unfold Polaroid.handleDelete. cbn.
    split; [|split]; cbn; [|exact Hstaged|exact Herr].
    intros p Hp. apply filter_In in Hp. now apply Hwall.
Qed.

Lemma run_well_formed (evs : list Event) (s : AppState) :
  well_formed s -> well_formed (run evs s).
Proof.
  revert s. unfold run. induction evs as [|ev evs IH]; intros s Hs; cbn.
  - exact Hs.
  - apply IH. now apply dispatch_well_formed.
Qed.

(** X13. In every state the application can reach from its initial state,
    whatever the order of user events, timers and arriving captions: each
    wall photo has a z-index of at least 100, the staged photo has z-index
    10 and position (0, 0), and the camera error is either absent or the
    message "Camera not found.", so that an error that is set is always
    one that blocks the shutter. *)
Theorem reachable_states_well_formed (evs : list Event) :
  let s := run evs initialState in
  (forall p, In p (photos s) -> 100 <= PhotoData.zIndex p) /\
  (forall p, stagedPhoto s = Some p ->
             PhotoData.zIndex p = 10 /\ PhotoData.position p = Position.mk 0 0) /\
  (forall p q, stagedPhoto s = Some p -> In q (photos s) ->
               PhotoData.zIndex p < PhotoData.zIndex q) /\
  (cameraError s = None \/ cameraError s = Some "Camera not found."%string) /\
  (cameraError s <> None <-> truthy_string (cameraError s) = true).
Proof.
  cbv zeta.
  assert (H0 : well_formed initialState).
  { split; [|split]; cbn; [intros p [] | discriminate | auto]. }
  destruct (run_well_formed evs initialState H0) as (Hwall & Hstaged & Herr).
  split; [exact Hwall|]. split; [exact Hstaged|]. split; [|split; [exact Herr|]].
  - intros p q Hp Hq. destruct (Hstaged p Hp) as (-> & _).
    specialize (Hwall q Hq). lra.
  - destruct Herr as [-> | ->]; cbn; split; intros H; congruence.
Qed.

Lemma reachable_states_well_formed_witness :
  exists q, nth_error (photos (run Session.events initialState)) 1 = Some q /\
            100 <= PhotoData.zIndex q.
Proof.
  destruct (reachable_states_well_formed Session.events) as (Hwall & _).
  eexists. split; [reflexivity|].
  apply Hwall. right. left. reflexivity.
Defined.

Lemma continues_refl (p : PhotoData.t) : continues p p.
Proof. repeat split. auto. Qed.

Lemma continues_spread (p : PhotoData.t) (u : Partial.t) :
  Partial.id u = None -> Partial.dataUrl u = None -> Partial.date u = None ->
  Partial.isDeveloping u <> Some true ->
  continues p (spread p u).
Proof.
  intros Hi Hd Ht Hv. unfold continues, spread. cbn.
  rewrite Hi, Hd, Ht. cbn. repeat split.
  destruct (Partial.isDeveloping u) as [[|]|]; cbn; congruence.
Qed.

Lemma updatePhoto_shape (ev : Event) (id : string) (u : Partial.t) (s : AppState) :
  Partial.id u = None -> Partial.dataUrl u = None -> Partial.date u = None ->
  Partial.isDeveloping u <> Some true ->
  transition_shape ev s (updatePhoto id u s).
Proof.
  intros Hi Hd Ht Hv.
  apply shape_in_place
    with (f := fun p => if String.eqb (PhotoData.id p) id then spread p u else p)
         (g := fun p => p).
  - reflexivity.
  - cbn. now destruct (stagedPhoto s).
  - intros p. destruct (String.eqb (PhotoData.id p) id);
      [now apply continues_spread | apply continues_refl].
  - apply continues_refl.
Qed.

Lemma unchanged_shape (ev : Event) (s s' : AppState) :
  photos s' = photos s -> stagedPhoto s' = stagedPhoto s -> transition_shape ev s s'.
Proof.
  intros Hp Hs. apply shape_in_place with (f := fun p => p) (g := fun p => p).
  - rewrite Hp. symmetry. apply map_id.
  - rewrite Hs. now destruct (stagedPhoto s).
  - apply continues_refl.
  - apply continues_refl.
Qed.

(** Every transition has one of the four shapes. *)
Lemma dispatch_shape (ev : Event) (s : AppState) : transition_shape ev s (dispatch ev s).
Proof.
  destruct ev as [preferred fallback video | env | n c | n | container e | e i
                 | e | | i text | i | n c | i]; cbn.
  - apply unchanged_shape; unfold startCamera; destruct preferred, fallback; reflexivity.
  - destruct (takePhoto_cases env s) as [(-> & _) | (Hnone & -> & _)].
    + now apply unchanged_shape.
    + now apply shape_shoot with (env := env).
  - apply shape_in_place with (f := updateFn n c) (g := updateFn n c).
    + reflexivity.
    + cbn. destruct (stagedPhoto s) as [sp|]; [|reflexivity]. cbn.
      destruct (String.eqb (PhotoData.id sp) n) eqn:E; [reflexivity|].
      unfold updateFn. now rewrite E.
    + intros p. unfold updateFn.
      destruct (String.eqb (PhotoData.id p) n);
        [apply continues_spread; cbn; congruence | apply continues_refl].
    + intros p. unfold updateFn.
      destruct (String.eqb (PhotoData.id p) n);
        [apply continues_spread; cbn; congruence | apply continues_refl].
  - apply shape_in_place with (f := clearDevFn n) (g := clearDevFn n).
    + reflexivity.
    + cbn. destruct (stagedPhoto s) as [sp|]; [|reflexivity]. cbn.
      destruct (String.eqb (PhotoData.id sp) n) eqn:E; [reflexivity|].
      unfold clearDevFn. now rewrite E.
    + intros p. unfold clearDevFn.
      destruct (String.eqb (PhotoData.id p) n);
        [apply continues_spread; cbn; congruence | apply continues_refl].
    + intros p. unfold clearDevFn.
      destruct (String.eqb (PhotoData.id p) n);
        [apply continues_spread; cbn; congruence | apply continues_refl].
  - unfold handleStagedMouseDown.
    destruct (stagedPhoto s) as [sp|] eqn:Esp; [|now apply unchanged_shape].
    destruct container as [rect|]; [|now apply unchanged_shape].
    eapply shape_promote with (staged := sp); cbn; try reflexivity; [exact Esp|].
    apply continues_spread; cbn; congruence.
  - unfold on_wall_photo.
    destruct (nth_error (photos s) i) as [photo|]; [|now apply unchanged_shape].
    apply shape_in_place
      with (f := fun p => if String.eqb (PhotoData.id p) (PhotoData.id photo)
                          then spread p (Partial.with_zIndex (maxZ (photos s)) Partial.empty)
                          else p)
           (g := fun p => p).
    + reflexivity.
    + cbn. now destruct (stagedPhoto s).
    + intros p. destruct (String.eqb (PhotoData.id p) (PhotoData.id photo));
        [apply continues_spread; cbn; congruence | apply continues_refl].
    + apply continues_refl.
  - unfold handleGlobalMouseMove.
    destruct (dragState s) as [d|]; [|now apply unchanged_shape].
    eapply shape_in_place with (g := fun p => p).
    + reflexivity.
    + cbn. now destruct (stagedPhoto s).
    + intros p. cbn. destruct (String.eqb (PhotoData.id p) (DragState.id d));
        [apply continues_spread; cbn; congruence | apply continues_refl].
    + apply continues_refl.
  - now apply unchanged_shape.
  - unfold on_wall_photo.
    destruct (nth_error (photos s) i) as [photo|]; [|now apply unchanged_shape].
    cbn. apply updatePhoto_shape; cbn; congruence.
  - unfold on_wall_photo.
    destruct (nth_error (photos s) i) as [photo|]; [|now apply unchanged_shape].
    unfold Polaroid.handleRegenerate_start. cbn. apply updatePhoto_shape; cbn; congruence.
  - apply updatePhoto_shape; cbn; congruence.
  - unfold on_wall_photo.
    destruct (nth_error (photos s) i) as [photo|]; [|now apply unchanged_shape].
    now apply shape_delete with (n := PhotoData.id photo).
Qed.

(** X14. No transition rewrites a picture: every photo the application
    holds after an event, staged or on the wall, either is the photo just
    created by the shutter or continues a photo held before the event with
    the same id, the same image data and the same date; and no event puts
    a photo back into the developing state. *)
Theorem transitions_keep_pictures (ev : Event) (s : AppState) (p' : PhotoData.t) :
  In p' (all_photos (dispatch ev s)) ->
  (exists p, In p (all_photos s) /\
             PhotoData.id p' = PhotoData.id p /\
             PhotoData.dataUrl p' = PhotoData.dataUrl p /\
             PhotoData.date p' = PhotoData.date p /\
             (PhotoData.isDeveloping p' = true -> PhotoData.isDeveloping p = true)) \/
  (exists env, ev = Shutter env /\ stagedPhoto s = None /\ p' = newPhoto env).
Proof.
  intros Hin. unfold all_photos in *.
  destruct (dispatch_shape ev s) as [f g Hp Hs Hf Hg | n Hp Hs | sp w Hsp Hs Hp Hc
                                    | env Hev Hnone Hs Hp].
  - left. rewrite Hp, Hs in Hin.
    destruct (stagedPhoto s) as [sp|]; cbn in Hin.
    + destruct Hin as [<- | Hin].
      * exists sp. split; [now left | apply Hg].
      * apply in_map_iff in Hin. destruct Hin as (q & <- & Hq).
        exists q. split; [now right | apply Hf].
    + apply in_map_iff in Hin. destruct Hin as (q & <- & Hq).
      exists q. split; [exact Hq | apply Hf].
  - left. rewrite Hp, Hs in Hin. exists p'. split; [|apply continues_refl].
    destruct (stagedPhoto s) as [sp|].
    + destruct Hin as [<- | Hin]; [now left | right]. now apply filter_In in Hin.
    + now apply filter_In in Hin.
  - left. rewrite Hp, Hs in Hin. rewrite Hsp.
    apply in_app_or in Hin. destruct Hin as [Hin | [<- | []]].
    + exists p'. split; [now right | apply continues_refl].
    + exists sp. split; [now left | exact Hc].
  - rewrite Hp, Hs in Hin. destruct Hin as [<- | Hin].
    + right. exists env. auto.
    + left. exists p'. rewrite Hnone. split; [exact Hin | apply continues_refl].
Qed.

Lemma transitions_keep_pictures_witness :
  exists p, In p (all_photos Sample.wall) /\
            PhotoData.id p = "1700000000003"%string /\
            PhotoData.dataUrl p = "data:image/jpeg;base64,CCCC"%string.
Proof.
  destruct (transitions_keep_pictures (StagedMouseDown (Some Sample.container) Sample.press)
              Sample.wall
              (spread Sample.fresh
                 (Partial.with_zIndex 100
                    (Partial.with_position
                       (Position.mk (64 + 450 / 2 - PHOTO_WIDTH / 2) (200 - PHOTO_HEIGHT * 0.25))
                       Partial.empty))))
    as [(p & Hin & Hid & Hurl & _) | (env & Hev & _)].
  - right. right. left. reflexivity.
  - exists p. split; [exact Hin|]. split; [now rewrite <- Hid | now rewrite <- Hurl].
  - discriminate Hev.
Defined.

Lemma ids_map_continue (f : PhotoData.t -> PhotoData.t) (l : list PhotoData.t) :
  (forall p, continues p (f p)) -> map PhotoData.id (map f l) = map PhotoData.id l.
Proof.
  intros Hf. rewrite map_map. apply map_ext. intros p. apply (Hf p).
Qed.

Lemma NoDup_ids_filter (test : PhotoData.t -> bool) (l : list PhotoData.t) :
  NoDup (map PhotoData.id l) -> NoDup (map PhotoData.id (filter test l)).
Proof.
  induction l as [|p l IH]; cbn; intros H; [constructor|].
  inversion H as [|? ? Hnot Hrest]; subst.
  destruct (test p); cbn; [|now apply IH].
  constructor; [|now apply IH].
  intros Hin. apply Hnot. apply in_map_iff in Hin. destruct Hin as (q & Hq & Hqin).
  apply in_map_iff. exists q. split; [exact Hq|]. now apply filter_In in Hqin.
Qed.

(** One transition keeps the ids distinct, provided a shutter press comes
    with an id that is not in use. *)
Lemma dispatch_distinct_ids (ev : Event) (s : AppState) :
  match ev with
  | Shutter env => ~ In (now env) (map PhotoData.id (all_photos s))
  | _ => True
  end ->
  NoDup (map PhotoData.id (all_photos s)) ->
  NoDup (map PhotoData.id (all_photos (dispatch ev s))).
Proof.
  intros Hfresh Hnd. unfold all_photos in *.
  destruct (dispatch_shape ev s) as [f g Hp Hs Hf Hg | n Hp Hs | sp w Hsp Hs Hp Hc
                                    | env Hev Hnone Hs Hp].
  - rewrite Hp, Hs. destruct (stagedPhoto s) as [sp|]; cbn in *.
    + rewrite (ids_map_continue f (photos s) Hf). now rewrite (proj1 (Hg sp)).
    + now rewrite (ids_map_continue f (photos s) Hf).
  - rewrite Hp, Hs. destruct (stagedPhoto s) as [sp|]; cbn in *.
    + inversion Hnd as [|? ? Hnot Hrest]; subst. constructor.
      * intros Hin. apply Hnot. apply in_map_iff in Hin. destruct Hin as (q & Hq & Hqin).
        apply in_map_iff. exists q. split; [exact Hq|]. now apply filter_In in Hqin.
      * now apply NoDup_ids_filter.
    + now apply NoDup_ids_filter.
  - rewrite Hp, Hs. rewrite Hsp in Hnd. cbn in Hnd.
    rewrite map_app. cbn. rewrite (proj1 Hc).
    apply (Permutation_NoDup (l := PhotoData.id sp :: map PhotoData.id (photos s)));
      [apply Permutation_cons_append | exact Hnd].
  - subst ev. rewrite Hp, Hs. rewrite Hnone in Hnd, Hfresh. cbn.
    now constructor.
Qed.

Lemma run_distinct_ids (evs : list Event) (s : AppState) :
  fresh_shots evs s ->
  NoDup (map PhotoData.id (all_photos s)) ->
  NoDup (map PhotoData.id (all_photos (run evs s))).
Proof.
  revert s. unfold run. induction evs as [|ev evs IH]; intros s Hfresh Hnd; cbn.
  - exact Hnd.
  - destruct Hfresh as (Hev & Hrest). apply IH; [exact Hrest|].
    now apply dispatch_distinct_ids.
Qed.

(** X15. If every shutter press happens at a time stamp that is not the id
    of a photo the application holds at that moment, then in every state
    reached from the initial state the ids of the staged photo and the
    wall photos are pairwise distinct: an id names at most one photo, and
    the staged photo's id is not on the wall. *)
Theorem ids_stay_distinct (evs : list Event) :
  fresh_shots evs initialState ->
  let s := run evs initialState in
  NoDup (map PhotoData.id (all_photos s)) /\
  (forall i j p q, nth_error (photos s) i = Some p -> nth_error (photos s) j = Some q ->
                   PhotoData.id p = PhotoData.id q -> i = j) /\
  (forall p q, stagedPhoto s = Some p -> In q (photos s) ->
               PhotoData.id q <> PhotoData.id p).
Proof.
  intros Hfresh. cbv zeta.
  assert (Hnd : NoDup (map PhotoData.id (all_photos (run evs initialState)))).
  { apply run_distinct_ids; [exact Hfresh | constructor]. }
  split; [exact Hnd|].
  unfold all_photos in Hnd.
  set (s := run evs initialState) in *.
  assert (Hwall : NoDup (map PhotoData.id (photos s))).
  { destruct (stagedPhoto s); [now inversion Hnd | exact Hnd]. }
  split.
  - intros i j p q Hi Hj Hid.
    rewrite NoDup_nth_error in Hwall. apply Hwall.
    + rewrite length_map. apply nth_error_Some. congruence.
    + rewrite !nth_error_map, Hi, Hj. cbn. now rewrite Hid.
  - intros p q Hp Hq Hid. rewrite Hp in Hnd. cbn in Hnd.
    inversion Hnd as [|? ? Hnot _]; subst. apply Hnot.
    rewrite <- Hid. now apply in_map.
Qed.

Lemma ids_stay_distinct_witness :
  NoDup (map PhotoData.id (all_photos (run Session.events initialState))).
Proof.
  destruct (ids_stay_distinct Session.events) as (Hnd & _).
  - cbn. repeat split; intros H; repeat (destruct H as [H | H]; try discriminate H); exact H.
  - exact Hnd.
Defined.

(** ** Sequences of handlers *)

(** X16. While a photo sits in the camera the shutter does nothing, and
    pulling that photo out re-arms it: the same press that was ignored
    before the promotion stages a new developing photo after it, starts its
    caption request and timer, and leaves the wall, which now ends with the
    promoted photo, as it is. *)
Theorem promotion_rearms_shutter
        (rect : DOMRect) (e : MouseEvent) (env : CaptureEnv) (vid : VideoElement)
        (s : AppState) (staged : PhotoData.t) :
  stagedPhoto s = Some staged ->
  videoRef env = Some vid ->
  truthy_string (cameraError s) = false ->
  ~ videoWidth vid == 0 -> ~ videoHeight vid == 0 ->
  context2d env = true ->
  let s1 := handleStagedMouseDown (Some rect) e s in
  takePhoto env s = (s, []) /\
  stagedPhoto (fst (takePhoto env s1)) = Some (newPhoto env) /\
  photos (fst (takePhoto env s1)) = photos s1 /\
  (exists w, photos s1 = photos s ++ [w] /\ same_but_placement staged w) /\
  In (GenerateCaption (now env) (toDataURL env)) (snd (takePhoto env s1)) /\
  In (DevelopTimer (now env) 3500) (snd (takePhoto env s1)).
Proof.
  intros Hst Hv Herr Hw Hh Hctx. cbv zeta.
  destruct (promoted_photo_is_last rect e s staged Hst) as (w & Hwall & Hsame & _ & Hnone).
  assert (Herr1 : truthy_string (cameraError (handleStagedMouseDown (Some rect) e s)) = false).
  { unfold handleStagedMouseDown. rewrite Hst. exact Herr. }
  rewrite (takePhoto_shoots env _ vid Hv Hnone Herr1 Hw Hh Hctx). cbn.
  split; [|split; [reflexivity | split; [reflexivity | split]]].
  - unfold takePhoto. now rewrite Hv, Hst.
  - exists w. split; assumption.
  - split; apply in_or_app; right; cbn; auto.
Qed.

Lemma promotion_rearms_shutter_witness :
  takePhoto Sample.ready Sample.wall = (Sample.wall, []) /\
  stagedPhoto (fst (takePhoto Sample.ready
                      (handleStagedMouseDown (Some Sample.container) Sample.press Sample.wall)))
  = Some (newPhoto Sample.ready).
Proof.
  destruct (promotion_rearms_shutter Sample.container Sample.press Sample.ready
              (mkVideo 640 480) Sample.wall Sample.fresh eq_refl eq_refl eq_refl)
    as (Hblocked & Hstaged & _); try reflexivity; try (intros H; discriminate H).
  split; assumption.
Defined.

(** X17. A photo pulled out of the camera follows the pointer from where
    the promotion put it: after the press at [press] and any moves ending
    at [e], the promoted photo, last on the wall, is at the promoted
    position shifted by [e - press], with z-index 100 and its picture,
    caption and flags unchanged; wall photos with another id have not
    moved. *)
Theorem staged_press_then_drag
        (rect : DOMRect) (press e : MouseEvent) (es : list MouseEvent)
        (s : AppState) (staged : PhotoData.t) :
  stagedPhoto s = Some staged ->
  let s' := mouseMoves (es ++ [e]) (handleStagedMouseDown (Some rect) press s) in
  (exists w, nth_error (photos s') (List.length (photos s)) = Some w /\
             same_but_placement staged w /\
             PhotoData.zIndex w = 100 /\
             PhotoData.position w =
             Position.mk (left rect + width rect / 2 - PHOTO_WIDTH / 2
                          + (clientX e - clientX press))
                         (top rect - PHOTO_HEIGHT * 0.25 + (clientY e - clientY press))) /\
  (forall i p, nth_error (photos s) i = Some p -> PhotoData.id p <> PhotoData.id staged ->
               nth_error (photos s') i = Some p) /\
  stagedPhoto s' = None.
Proof.
  intros Hst. cbv zeta. rewrite moves_then_move.
  unfold handleStagedMouseDown. rewrite Hst.
  unfold handleGlobalMouseMove. cbn.
  split; [|split; [|reflexivity]].
  - rewrite map_app, nth_error_app2 by (rewrite length_map; lia).
    rewrite length_map, Nat.sub_diag. cbn. rewrite String.eqb_refl.
    eexists. split; [reflexivity|]. repeat split.
  - intros i p Hi Hid. rewrite map_app, nth_error_app1.
    + rewrite nth_error_map, Hi. cbn. now rewrite (eqb_id_false p _ Hid).
    + rewrite length_map. apply nth_error_Some. congruence.
Qed.

Lemma staged_press_then_drag_witness :
  exists w,
    nth_error (photos (mouseMoves ([Sample.move1] ++ [Sample.move2])
                         (handleStagedMouseDown (Some Sample.container) Sample.press
                                                Sample.wall))) 2 = Some w /\
    same_but_placement Sample.fresh w /\
    PhotoData.zIndex w = 100.
Proof.
  destruct (staged_press_then_drag Sample.container Sample.press Sample.move2
              [Sample.move1] Sample.wall Sample.fresh eq_refl)
    as ((w & Hw & Hsame & Hz & _) & _).
  exists w. split; [exact Hw | split; [exact Hsame | exact Hz]].
Defined.

(** X18. Bringing to front never reuses a z-index: a second press on the
    photo that the first press brought to the front raises its z-index by
    one again, although it already was the topmost photo. *)
Theorem second_press_raises_again
        (e1 e2 : MouseEvent) (photo : PhotoData.t) (s : AppState)
        (i : nat) (p : PhotoData.t) :
  nth_error (photos s) i = Some p ->
  PhotoData.id p = PhotoData.id photo ->
  let s1 := handleWallMouseDown e1 photo s in
  exists p1, nth_error (photos s1) i = Some p1 /\
    (forall q, In q (photos s1) -> PhotoData.zIndex q <= PhotoData.zIndex p1) /\
    exists p2, nth_error (photos (handleWallMouseDown e2 p1 s1)) i = Some p2 /\
               PhotoData.zIndex p2 == PhotoData.zIndex p1 + 1.
Proof.
  intros Hi Hid. cbv zeta.
  destruct (maxZ_spec (photos s)) as (m & Hm & H100 & Hle & _).
  set (s1 := handleWallMouseDown e1 photo s).
  set (raise := fun q : PhotoData.t =>
                  if String.eqb (PhotoData.id q) (PhotoData.id photo)
                  then spread q (Partial.with_zIndex (maxZ (photos s)) Partial.empty)
                  else q).
  assert (Hs1 : photos s1 = map raise (photos s)) by reflexivity.
  assert (Hp1 : nth_error (photos s1) i = Some (raise p)).
  { rewrite Hs1, nth_error_map, Hi. reflexivity. }
  assert (Hz1 : PhotoData.zIndex (raise p) = maxZ (photos s)).
  { unfold raise. now rewrite (eqb_id_true p _ Hid). }
  assert (Hid1 : PhotoData.id (raise p) = PhotoData.id photo).
  { unfold raise. now rewrite (eqb_id_true p _ Hid). }
  assert (Htop : forall q, In q (photos s1) -> PhotoData.zIndex q <= maxZ (photos s)).
  { intros q Hq. rewrite Hs1 in Hq. apply in_map_iff in Hq. destruct Hq as (q0 & <- & Hq0).
    unfold raise. destruct (String.eqb (PhotoData.id q0) (PhotoData.id photo)); cbn.
    - apply Qle_refl.
    - specialize (Hle q0 Hq0). rewrite Hm. lra. }
  clearbody s1.
  exists (raise p). split; [exact Hp1|]. split; [now rewrite Hz1|].
  destruct (maxZ_spec (photos s1)) as (m' & Hm' & H100' & Hle' & Hwhich').
  assert (Hm'eq : m' == maxZ (photos s)).
  { apply Qle_antisym.
    - destruct Hwhich' as [-> | (q & Hq & ->)]; [rewrite Hm; lra | now apply Htop].
    - rewrite <- Hz1. apply Hle'. now apply nth_error_In in Hp1. }
  unfold handleWallMouseDown. cbn. rewrite nth_error_map, Hp1. cbn.
  rewrite String.eqb_refl. eexists. split; [reflexivity|]. cbn.
  rewrite Hm', Hz1, Hm'eq. reflexivity.
Qed.

Lemma second_press_raises_again_witness :
  exists p1, nth_error (photos (handleWallMouseDown Sample.press Sample.photoA Sample.wall)) 0
             = Some p1 /\
    exists p2, nth_error (photos (handleWallMouseDown Sample.press p1
                                    (handleWallMouseDown Sample.press Sample.photoA Sample.wall))) 0
               = Some p2 /\
               PhotoData.zIndex p2 == PhotoData.zIndex p1 + 1.
Proof.
  destruct (second_press_raises_again Sample.press Sample.press Sample.photoA Sample.wall
              0%nat Sample.photoA eq_refl eq_refl) as (p1 & Hp1 & _ & p2 & Hp2 & Hz).
  exists p1. split; [exact Hp1|]. exists p2. split; [exact Hp2 | exact Hz].
Defined.

(** ** The editor and the buttons across renders *)

Lemma rerender_same_caption (p p' : PhotoData.t) (l : Polaroid.Local) :
  PhotoData.caption p' = PhotoData.caption p -> Polaroid.rerender p p' l = l.
Proof.
  intros H. unfold Polaroid.rerender. now rewrite H, String.eqb_refl.
Qed.

(** X19. An edit in progress survives everything but a new caption.  The
    camera start, the shutter, presses, moves, the release, the developing
    timer and a click on regenerate leave the caption of the photo at each
    place of the wall as it was, so re-rendering keeps the edit buffer and
    the editor as they are.  When the caption requested by [takePhoto]
    arrives for that photo and differs from its caption, the re-render
    replaces the edit buffer by the arrived caption and leaves the editor
    open. *)
Theorem edit_buffer_survives_all_but_captions
        (ev : Event) (s : AppState) (i : nat) (p : PhotoData.t) (l : Polaroid.Local) :
  nth_error (photos s) i = Some p ->
  match ev with
  | EditSaved _ _ | RegenerateArrived _ _ | DeleteClicked _ => True
  | CaptionArrived n c =>
      exists p', nth_error (photos (dispatch ev s)) i = Some p' /\
                 (PhotoData.id p <> n -> Polaroid.rerender p p' l = l) /\
                 (PhotoData.id p = n -> PhotoData.caption p <> c ->
                  Polaroid.editText (Polaroid.rerender p p' l) = c /\
                  Polaroid.isEditing (Polaroid.rerender p p' l) = Polaroid.isEditing l /\
                  Polaroid.isHovering (Polaroid.rerender p p' l) = Polaroid.isHovering l)
  | _ =>
      exists p', nth_error (photos (dispatch ev s)) i = Some p' /\
                 Polaroid.rerender p p' l = l
  end.
Proof.
  intros Hi.
  destruct ev as [preferred fallback video | env | n c | n | container e | e j
                 | e | | j text | j | n c | j]; cbn; try exact I.
  - exists p. split; [|now apply rerender_same_caption].
    unfold startCamera. destruct preferred, fallback; exact Hi.
  - exists p. split; [|now apply rerender_same_caption].
    destruct (takePhoto_cases env s) as [(-> & _) | (_ & -> & _)]; exact Hi.
  - rewrite nth_error_map, Hi. cbn. eexists. split; [reflexivity|]. split.
    + intros Hid. rewrite (updateFn_miss n c p Hid). now apply rerender_same_caption.
    + intros Hid Hc. unfold updateFn. rewrite (eqb_id_true p _ Hid).
      unfold Polaroid.rerender. cbn.
      apply String.eqb_neq in Hc. rewrite Hc. repeat split.
  - rewrite nth_error_map, Hi. cbn. eexists. split; [reflexivity|].
    apply rerender_same_caption. unfold clearDevFn.
    now destruct (String.eqb (PhotoData.id p) n).
  - exists p. split; [|now apply rerender_same_caption].
    unfold handleStagedMouseDown.
    destruct (stagedPhoto s) as [sp|]; [|exact Hi].
    destruct container as [rect|]; [|exact Hi]. cbn.
    rewrite nth_error_app1; [exact Hi|]. apply nth_error_Some. congruence.
  - unfold on_wall_photo. destruct (nth_error (photos s) j) as [photo|].
    + cbn. rewrite nth_error_map, Hi. cbn. eexists. split; [reflexivity|].
      apply rerender_same_caption.
      now destruct (String.eqb (PhotoData.id p) (PhotoData.id photo)).
    + exists p. split; [exact Hi | now apply rerender_same_caption].
  - unfold handleGlobalMouseMove. destruct (dragState s) as [d|].
    + cbn. rewrite nth_error_map, Hi. cbn. eexists. split; [reflexivity|].
      apply rerender_same_caption.
      now destruct (String.eqb (PhotoData.id p) (DragState.id d)).
    + exists p. split; [exact Hi | now apply rerender_same_caption].
  - exists p. split; [exact Hi | now apply rerender_same_caption].
  - unfold on_wall_photo. destruct (nth_error (photos s) j) as [photo|].
    + cbn. rewrite nth_error_map, Hi. cbn. eexists. split; [reflexivity|].
      apply rerender_same_caption.
      now destruct (String.eqb (PhotoData.id p) (PhotoData.id photo)).
    + exists p. split; [exact Hi | now apply rerender_same_caption].
Qed.

Lemma edit_buffer_survives_all_but_captions_witness :
  (exists p', nth_error (photos (dispatch (MouseMove Sample.move1) Sample.dragging)) 1 = Some p' /\
              Polaroid.rerender Sample.photoB p' Sample.editing = Sample.editing) /\
  (exists p', nth_error (photos (dispatch (CaptionArrived "1700000000002" "still waters")
                                          Sample.dragging)) 1 = Some p' /\
              Polaroid.editText (Polaroid.rerender Sample.photoB p' Sample.editing)
              = "still waters"%string).
Proof.
  split.
  - exact (edit_buffer_survives_all_but_captions (MouseMove Sample.move1) Sample.dragging
             1%nat Sample.photoB Sample.editing eq_refl).
  - destruct (edit_buffer_survives_all_but_captions
                (CaptionArrived "1700000000002" "still waters") Sample.dragging
                1%nat Sample.photoB Sample.editing eq_refl) as (p' & Hp' & _ & Hnew).
    exists p'. split; [exact Hp'|]. apply Hnew; [reflexivity | discriminate].
Defined.

(** X20. The edit and regenerate buttons are withheld while a caption is
    on its way: after a click on regenerate the photo at that place is
    loading and the buttons are not rendered, whatever the pointer does;
    the same holds for a photo from the moment it is taken until its
    caption arrives, also across its promotion to the wall.  Once the
    regenerated caption has arrived the buttons are rendered again exactly
    when the pointer hovers and the editor is closed. *)
Theorem caption_buttons_hidden_while_loading
        (s : AppState) (i : nat) (p : PhotoData.t) (c : string) (l : Polaroid.Local) :
  nth_error (photos s) i = Some p ->
  (exists p1, nth_error (photos (dispatch (RegenerateClicked i) s)) i = Some p1 /\
              PhotoData.isLoadingCaption p1 = true /\
              Polaroid.captionActionsVisible (Polaroid.wallProps p1) l = false) /\
  (exists p2, nth_error (photos (dispatch (RegenerateArrived (PhotoData.id p) c)
                                          (dispatch (RegenerateClicked i) s))) i = Some p2 /\
              Polaroid.captionActionsVisible (Polaroid.wallProps p2) l
              = negb (Polaroid.isEditing l) && Polaroid.isHovering l) /\
  (forall env rect e,
     Polaroid.captionActionsVisible (Polaroid.wallProps (newPhoto env)) l = false /\
     forall s0 w, stagedPhoto s0 = Some (newPhoto env) ->
       nth_error (photos (handleStagedMouseDown (Some rect) e s0)) (List.length (photos s0))
       = Some w ->
       Polaroid.captionActionsVisible (Polaroid.wallProps w) l = false).
Proof.
  intros Hi. split; [|split].
  - cbn. unfold on_wall_photo. rewrite Hi.
    unfold Polaroid.handleRegenerate_start. cbn. rewrite nth_error_map, Hi. cbn.
    rewrite String.eqb_refl. eexists. split; [reflexivity|]. split; [reflexivity|].
    unfold Polaroid.captionActionsVisible. cbn.
    now rewrite !andb_false_r.
  - cbn. unfold on_wall_photo. rewrite Hi.
    unfold Polaroid.handleRegenerate_start. cbn. rewrite !nth_error_map, Hi. cbn.
    rewrite String.eqb_refl. cbn. rewrite String.eqb_refl.
    eexists. split; [reflexivity|].
    unfold Polaroid.captionActionsVisible. cbn. now rewrite andb_true_r.
  - intros env rect e. split.
    + unfold Polaroid.captionActionsVisible. cbn. now rewrite !andb_false_r.
    + intros s0 w Hs0 Hw.
      destruct (promoted_photo_is_last rect e s0 (newPhoto env) Hs0)
        as (w' & Hwall & Hsame & _).
      rewrite Hwall, nth_error_app2, Nat.sub_diag in Hw by lia. cbn in Hw.
      injection Hw as <-.
      destruct Hsame as (_ & _ & _ & _ & _ & Hload).
      unfold Polaroid.captionActionsVisible. cbn. rewrite Hload. cbn.
      now rewrite !andb_false_r.
Qed.

Lemma caption_buttons_hidden_while_loading_witness :
  exists p1, nth_error (photos (dispatch (RegenerateClicked 0) Sample.wall)) 0 = Some p1 /\
             PhotoData.isLoadingCaption p1 = true /\
             Polaroid.captionActionsVisible (Polaroid.wallProps p1) Sample.editing = false.
Proof.
  destruct (caption_buttons_hidden_while_loading Sample.wall 0%nat Sample.photoA
              "dusk" Sample.editing eq_refl) as (Hclick & _).
  exact Hclick.
Defined.

(** ** The tilt of a wall photo *)

Lemma decimal_char (c : ascii) :
  is_decimal c = true ->
  Gemini.isWhiteSpace c = false /\
  Ascii.eqb c "-" = false /\ Ascii.eqb c "+" = false /\
  Ascii.eqb c "x" = false /\ Ascii.eqb c "X" = false /\
  exists d, digit_value 10 c = Some d /\ (0 <= d < 10)%Z /\
            d = (Z.of_nat (nat_of_ascii c) - 48)%Z.
Proof.
  intros H.
  destruct c as [[] [] [] [] [] [] [] []]; vm_compute in H; try discriminate H;
    (repeat (split; [reflexivity|]); eexists; split; [reflexivity|];
     split; [vm_compute; split; [discriminate | reflexivity] | reflexivity]).
Qed.

Lemma parse_digits_last (s : string) (acc : option Z) :
  all_decimal s = true -> s <> EmptyString ->
  (forall a, acc = Some a -> (0 <= a)%Z) ->
  exists v d, parse_digits 10 acc s = Some v /\ (0 <= v)%Z /\
              last_char s = Some d /\
              Z.rem v 10 = (Z.of_nat (nat_of_ascii d) - 48)%Z.
Proof.
  revert acc. induction s as [|c rest IH]; intros acc Hall Hne Hacc; [congruence|].
  cbn in Hall. apply andb_true_iff in Hall. destruct Hall as (Hc & Hrest).
  destruct (decimal_char c Hc) as (_ & _ & _ & _ & _ & d0 & Hd0 & Hrange & Hval).
  cbn [parse_digits]. rewrite Hd0.
  set (a' := match acc with Some a => (a * 10 + d0)%Z | None => d0 end).
  assert (Ha' : (0 <= a')%Z).
  { unfold a'. destruct acc as [a|]; [|lia]. specialize (Hacc a eq_refl). lia. }
  assert (Hrem : Z.rem a' 10 = d0).
  { unfold a'. destruct acc as [a|].
    - specialize (Hacc a eq_refl).
      rewrite Z.rem_mod_nonneg by lia.
      rewrite Z.add_comm, Z.mod_add by lia. apply Z.mod_small. lia.
    - rewrite Z.rem_mod_nonneg by lia. apply Z.mod_small. lia. }
  destruct rest as [|c' r].
  - exists a', c. cbn. repeat split; [exact Ha' | congruence].
  - destruct (IH (Some a') Hrest) as (v & d & Hv & Hv0 & Hlast & Hvrem).
    + discriminate.
    + intros a Ha. injection Ha as <-. exact Ha'.
    + exists v, d. repeat split; assumption.
Qed.

Lemma parseInt_decimal (s : string) :
  all_decimal s = true -> s <> EmptyString ->
  parseInt s = option_map (Z.mul 1) (parse_digits 10 None s).
Proof.
  intros Hall Hne. destruct s as [|c rest]; [congruence|].
  pose proof Hall as Hall'. cbn in Hall'.
  apply andb_true_iff in Hall'. destruct Hall' as (Hc & Hrest).
  destruct (decimal_char c Hc) as (Hw & Hminus & Hplus & _).
  unfold parseInt. cbn [Gemini.trimStart]. rewrite Hw, Hminus, Hplus.
  cbn [fst snd].
  destruct rest as [|x r]; [reflexivity|].
  cbn in Hrest. apply andb_true_iff in Hrest. destruct Hrest as (Hx & _).
  destruct (decimal_char x Hx) as (_ & _ & _ & Hlx & Hux & _).
  rewrite Hlx, Hux, andb_false_r. reflexivity.
Qed.

(** X21. A wall photo is tilted by the last digit of its id minus five
    degrees: for an id made of one to fifteen decimal digits, as a time
    stamp in milliseconds is, [(parseInt(id) % 10) - 5] is that digit minus
    5, a whole number of degrees between -5 and 4. *)
Theorem tilt_is_last_digit_minus_five (photo : PhotoData.t) :
  all_decimal (PhotoData.id photo) = true ->
  PhotoData.id photo <> EmptyString ->
  (String.length (PhotoData.id photo) <= 15)%nat ->
  exists d, last_char (PhotoData.id photo) = Some d /\
            rotation photo = Some (Z.of_nat (nat_of_ascii d) - 48 - 5)%Z /\
            (-5 <= Z.of_nat (nat_of_ascii d) - 48 - 5 <= 4)%Z.
Proof.
  intros Hall Hne _.
  destruct (parse_digits_last (PhotoData.id photo) None Hall Hne)
    as (v & d & Hv & Hv0 & Hlast & Hrem); [discriminate|].
  exists d. split; [exact Hlast|].
  unfold rotation. rewrite (parseInt_decimal _ Hall Hne), Hv. cbn [option_map].
  rewrite Z.mul_1_l, Hrem. split; [reflexivity|].
  rewrite <- Hrem. rewrite Z.rem_mod_nonneg by lia.
  pose proof (Z.mod_pos_bound v 10). lia.
Qed.

Lemma tilt_is_last_digit_minus_five_witness :
  exists d, last_char (PhotoData.id Sample.photoB) = Some d /\
            rotation Sample.photoB = Some (Z.of_nat (nat_of_ascii d) - 48 - 5)%Z.
Proof.
  destruct (tilt_is_last_digit_minus_five Sample.photoB) as (d & Hlast & Hrot & _).
  - reflexivity.
  - discriminate.
  - cbn. lia.
  - exists d. split; assumption.
Defined.
